(** * OpenAPI documentation engine: reference resolution, example synthesis,
      endpoint extraction and request-snippet generation

    A shallow embedding of [src/utils/openApiParser.ts] and
    [src/utils/codeGenerator.ts].

    Modelling conventions.
    - The specification is the value produced by [JSON.parse] / [yaml.load]
      and is read by the code without any validation, so it is modelled as
      an untyped JavaScript value ([JsValue]).  An object is the list of its
      own properties in enumeration order, with pairwise distinct keys; a
      property read takes the first binding.
    - Only own properties are represented.  The engine's property read goes
      on along the prototype chain: for a key that is not an own property
      but names a member of a built-in prototype ([constructor],
      [toString], [__proto__], ...) it returns that member, a built-in
      function or object, which the model does not have.  Every key the
      code reads is a fixed name that is no such member ([$ref], [type],
      [paths], ...), with one exception: the segments [resolveRef] walks
      come from the document.  For [resolveRef] the model is the code on
      references none of whose segments names an inherited member; on the
      others the code returns or walks into a built-in member where the
      model finds nothing.
    - A string is a sequence of code units; Rocq's [string] is used, one
      character per code unit (code units below 256).
    - A number is an integer that a double holds exactly and prints digit
      by digit (magnitude below 2^53), or NaN; larger and fractional
      values play no part in the functions below except through
      truthiness, where they behave as any non-zero integer does, and
      through [String(v)], where they are outside the model.
    - Code that can throw or recurse without bound returns an [Outcome]:
      a value, a thrown error, or [OutOfFuel] when the recursion budget of
      the model is exhausted (the source has no cycle guard). *)

From Stdlib Require Import String Ascii List ZArith NArith Bool Lia.
From Stdlib Require Import Numbers.DecimalString.
Import ListNotations.
Local Open Scope list_scope.
Local Open Scope string_scope.

(** ** JavaScript values *)

Set Warnings "-register-all".

Inductive JsValue : Type :=
| JUndefined
| JNull
| JBool (b : bool)
| JNum (n : Z)
| JNaN
| JStr (s : string)
| JArr (xs : list JsValue)
| JObj (ps : list (string * JsValue)).

(** ToBoolean: what [if (v)], [!v], [a || b] and [c ? x : y] test. *)
Definition truthy (v : JsValue) : bool :=
  match v with
  | JUndefined | JNull | JNaN => false
  | JBool b => b
  | JNum n => negb (Z.eqb n 0)
  | JStr s => negb (String.eqb s "")
  | JArr _ | JObj _ => true
  end.

Definition is_undefined (v : JsValue) : bool :=
  match v with JUndefined => true | _ => false end.

Definition is_nullish (v : JsValue) : bool :=
  match v with JUndefined | JNull => true | _ => false end.

(** [v === "lit"] for a string literal. *)
Definition strict_eq_str (v : JsValue) (lit : string) : bool :=
  match v with JStr s => String.eqb s lit | _ => false end.

(** [a || b] *)
Definition js_or (a b : JsValue) : JsValue := if truthy a then a else b.

(** ** Strings *)

Definition string_of_nat (n : nat) : string :=
  NilEmpty.string_of_uint (Nat.to_uint n).

Definition string_of_N (n : N) : string :=
  NilEmpty.string_of_uint (N.to_uint n).

Definition string_of_Z (z : Z) : string :=
  NilEmpty.string_of_int (Z.to_int z).

(** [s.startsWith(p)] *)
Definition startsWith (p s : string) : bool := String.prefix p s.

(** [s.slice(n)] for [n >= 0] *)
Fixpoint slice (n : nat) (s : string) : string :=
  match n, s with
  | O, _ => s
  | S _, EmptyString => EmptyString
  | S k, String _ r => slice k r
  end.

(** [s.split(sep)] for a one-character separator: never empty, [""] for
    the empty string. *)
Fixpoint split (sep : ascii) (s : string) : list string :=
  match s with
  | EmptyString => [EmptyString]
  | String c r =>
      if Ascii.eqb c sep then EmptyString :: split sep r
      else match split sep r with
           | h :: t => String c h :: t
           | [] => [String c EmptyString]
           end
  end.

(** [xs.join(sep)] on strings *)
Fixpoint join (sep : string) (xs : list string) : string :=
  match xs with
  | [] => EmptyString
  | [x] => x
  | x :: r => x ++ sep ++ join sep r
  end.

Fixpoint string_map (f : ascii -> ascii) (s : string) : string :=
  match s with
  | EmptyString => EmptyString
  | String c r => String (f c) (string_map f r)
  end.

Fixpoint chars (s : string) : list string :=
  match s with
  | EmptyString => []
  | String c r => String c EmptyString :: chars r
  end.

Definition is_digit (c : ascii) : bool :=
  let n := nat_of_ascii c in (48 <=? n)%nat && (n <=? 57)%nat.
Definition is_upper (c : ascii) : bool :=
  let n := nat_of_ascii c in (65 <=? n)%nat && (n <=? 90)%nat.
Definition is_lower (c : ascii) : bool :=
  let n := nat_of_ascii c in (97 <=? n)%nat && (n <=? 122)%nat.
Definition is_alnum (c : ascii) : bool :=
  is_lower c || is_upper c || is_digit c.

(** [s.toUpperCase()] / [s.toLowerCase()] on the letters a-z / A-Z. *)
Definition toUpperCase : string -> string :=
  string_map (fun c => if is_lower c then ascii_of_nat (nat_of_ascii c - 32) else c).
Definition toLowerCase : string -> string :=
  string_map (fun c => if is_upper c then ascii_of_nat (nat_of_ascii c + 32) else c).

(** A canonical array index: the decimal numeral of an integer below
    2^32 - 1, without sign or leading zeros. *)
Definition array_index (k : string) : option N :=
  match NilEmpty.uint_of_string k with
  | Some u =>
      let n := N.of_uint u in
      if String.eqb (string_of_N n) k && (n <? 4294967295)%N then Some n else None
  | None => None
  end.

(** ** Property access *)

Fixpoint lookup {V : Type} (k : string) (ps : list (string * V)) : option V :=
  match ps with
  | [] => None
  | (k', v) :: r => if String.eqb k' k then Some v else lookup k r
  end.

(** [v[k]] on a value that is not null or undefined, and [v?.[k]] on any
    value, for a key [k] that names no inherited member: own properties of
    objects, elements and [length] of arrays, code units and [length] of
    strings; [undefined] otherwise. *)
Definition get (v : JsValue) (k : string) : JsValue :=
  match v with
  | JObj ps => match lookup k ps with Some x => x | None => JUndefined end
  | JArr xs =>
      if String.eqb k "length" then JNum (Z.of_nat (List.length xs))
      else match array_index k with
           | Some i => nth (N.to_nat i) xs JUndefined
           | None => JUndefined
           end
  | JStr s =>
      if String.eqb k "length" then JNum (Z.of_nat (String.length s))
      else match array_index k with
           | Some i => match String.get (N.to_nat i) s with
                       | Some c => JStr (String c EmptyString)
                       | None => JUndefined
                       end
           | None => JUndefined
           end
  | _ => JUndefined
  end.

(** ** Outcomes of a call *)

Inductive JsError : Type :=
| TypeError
| Error (message : string).

Inductive Outcome (A : Type) : Type :=
| Ret (a : A)
| Throw (e : JsError)
| OutOfFuel.
Arguments Ret {A} a.
Arguments Throw {A} e.
Arguments OutOfFuel {A}.

Definition bind {A B : Type} (c : Outcome A) (k : A -> Outcome B) : Outcome B :=
  match c with
  | Ret a => k a
  | Throw e => Throw e
  | OutOfFuel => OutOfFuel
  end.

Notation "x <- c ;; k" := (bind c (fun x => k))
  (at level 61, c at next level, right associativity).

(** [v.k]: reading a property of null or undefined throws. *)
Definition member (v : JsValue) (k : string) : Outcome JsValue :=
  if is_nullish v then Throw TypeError else Ret (get v k).

(** [xs.forEach(f)] threading the mutated state [s] *)
Fixpoint forEach {A S : Type} (xs : list A) (f : S -> A -> Outcome S) (s : S)
  : Outcome S :=
  match xs with
  | [] => Ret s
  | x :: r => s' <- f s x ;; forEach r f s'
  end.

Fixpoint filterM {A : Type} (f : A -> Outcome bool) (xs : list A) : Outcome (list A) :=
  match xs with
  | [] => Ret []
  | x :: r => b <- f x ;; ys <- filterM f r ;; Ret (if b then x :: ys else ys)
  end.

(** ** Objects as ordered property lists *)

Fixpoint indexed_from {V : Type} (i : nat) (xs : list V) : list (string * V) :=
  match xs with
  | [] => []
  | x :: r => (string_of_nat i, x) :: indexed_from (S i) r
  end.

(** The own enumerable string-keyed properties, as [Object.entries] lists
    them, of a value that is not null or undefined. *)
Definition own_entries (v : JsValue) : list (string * JsValue) :=
  match v with
  | JObj ps => ps
  | JArr xs => indexed_from 0 xs
  | JStr s => indexed_from 0 (map JStr (chars s))
  | _ => []
  end.

(** [Object.entries(v)] *)
Definition Object_entries (v : JsValue) : Outcome (list (string * JsValue)) :=
  if is_nullish v then Throw TypeError else Ret (own_entries v).

Fixpoint has_key {V : Type} (k : string) (ps : list (string * V)) : bool :=
  match ps with
  | [] => false
  | (k', _) :: r => String.eqb k' k || has_key k r
  end.

Fixpoint replace_key {V : Type} (k : string) (v : V) (ps : list (string * V))
  : list (string * V) :=
  match ps with
  | [] => []
  | (k', v') :: r =>
      if String.eqb k' k then (k, v) :: r else (k', v') :: replace_key k v r
  end.

(** Where a new key goes: array indices first, in ascending order, then
    every other key in insertion order. *)
Fixpoint insert_key {V : Type} (k : string) (v : V) (ps : list (string * V))
  : list (string * V) :=
  match ps with
  | [] => [(k, v)]
  | (k', v') :: r =>
      match array_index k, array_index k' with
      | Some i, Some i' =>
          if (i <? i')%N then (k, v) :: ps else (k', v') :: insert_key k v r
      | Some _, None => (k, v) :: ps
      | None, _ => (k', v') :: insert_key k v r
      end
  end.

(** Defining the own property [k]: what an object literal and a spread do
    for every key, and what the assignment [o[k] = v] does for a key that
    is not inherited as an accessor. *)
Definition obj_set {V : Type} (k : string) (v : V) (ps : list (string * V))
  : list (string * V) :=
  if has_key k ps then replace_key k v ps else insert_key k v ps.

(** Spreading [source] into the literal [target]: each property is defined
    as an own property, whatever its name. *)
Definition obj_assign {V : Type} (target source : list (string * V))
  : list (string * V) :=
  fold_left (fun acc kv => obj_set (fst kv) (snd kv) acc) source target.

(** An object created by [{}] while the code fills it: its own properties,
    and whether an assignment to the key [__proto__] still reaches the
    accessor that [Object.prototype] provides. *)
Record Draft : Type := {
  draft_own : list (string * JsValue);
  draft_accessor : bool
}.

Definition emptyDraft : Draft := {| draft_own := []; draft_accessor := true |}.

(** The assignment [o[k] = v].  It writes the own property [k], except
    where it reaches the accessor [__proto__]: the setter then makes an
    object or null the prototype of [o], ignores any other value, and
    writes no property.  The accessor is out of reach once the prototype
    is null or an object with a property [__proto__] of its own; from then
    on [__proto__] is written like any other key. *)
Definition assignKey (k : string) (v : JsValue) (o : Draft) : Draft :=
  if String.eqb k "__proto__" && negb (has_key k (draft_own o)) && draft_accessor o
  then
    {| draft_own := draft_own o;
       draft_accessor :=
         match v with
         | JNull => false
         | JObj ps => negb (has_key "__proto__" ps)
         | _ => true
         end |}
  else
    {| draft_own := obj_set k v (draft_own o);
       draft_accessor := draft_accessor o |}.

(** [Object.assign(target, source)]: one assignment per own property of
    the source. *)
Definition Object_assign (target : Draft) (source : list (string * JsValue)) : Draft :=
  fold_left (fun acc kv => assignKey (fst kv) (snd kv) acc) source target.

(** ** Reference Resolver *)

(** The body of [for (const part of parts)] in [resolveRef]. *)
Fixpoint resolveRef_loop (parts : list string) (current : JsValue) : JsValue :=
  match parts with
  | [] => current
  | part :: rest =>
      let current' := get current part in
      if negb (truthy current') then JUndefined
      else resolveRef_loop rest current'
  end.

Definition resolveRef (spec : JsValue) (ref : string) : JsValue :=
  if negb (startsWith "#/" ref) then JUndefined
  else
    let parts := split "/" (slice 2 ref) in
    resolveRef_loop parts spec.

(** [resolveSchema]; each reference followed costs one unit of fuel. *)
Fixpoint resolveSchema (fuel : nat) (spec schema : JsValue) : Outcome JsValue :=
  if negb (truthy schema) then Ret JUndefined
  else
    let r := get schema "$ref" in
    if truthy r then
      match r with
      | JStr ref =>
          let resolved := resolveRef spec ref in
          if truthy resolved then
            match fuel with
            | O => OutOfFuel
            | S fuel' => resolveSchema fuel' spec resolved
            end
          else Ret JUndefined
      | _ => Throw TypeError (* ref.startsWith is not a function *)
      end
    else Ret schema.

(** ** Example Synthesizer *)

(** [typeof v === 'object'] *)
Definition typeof_object (v : JsValue) : bool :=
  match v with JNull | JArr _ | JObj _ => true | _ => false end.

(** [generateExampleFromSchema]; every nested call costs one unit of fuel. *)
Fixpoint generateExampleFromSchema (fuel : nat) (spec schema : JsValue)
  : Outcome JsValue :=
  match fuel with
  | O => OutOfFuel
  | S fuel' =>
    if negb (truthy schema) then Ret JNull
    else
      resolved <- resolveSchema fuel' spec schema ;;
      if negb (truthy resolved) then Ret JNull
      else if negb (is_undefined (get resolved "example")) then
        Ret (get resolved "example")
      else if negb (is_undefined (get resolved "default")) then
        Ret (get resolved "default")
      else
        let type := get resolved "type" in
        let format := get resolved "format" in
        if strict_eq_str type "string" then
          if truthy (get resolved "enum") then Ret (get (get resolved "enum") "0")
          else if strict_eq_str format "date" then Ret (JStr "2024-01-15")
          else if strict_eq_str format "date-time" then Ret (JStr "2024-01-15T10:30:00Z")
          else if strict_eq_str format "email" then Ret (JStr "user@example.com")
          else if strict_eq_str format "uuid" then
            Ret (JStr "550e8400-e29b-41d4-a716-446655440000")
          else if strict_eq_str format "uri" then Ret (JStr "https://example.com")
          else Ret (JStr "string")
        else if strict_eq_str type "number" || strict_eq_str type "integer" then
          Ret (if truthy (get resolved "enum") then get (get resolved "enum") "0"
               else JNum 0)
        else if strict_eq_str type "boolean" then Ret (JBool true)
        else if strict_eq_str type "array" then
          itemExample <- generateExampleFromSchema fuel' spec (get resolved "items") ;;
          Ret (if truthy itemExample then JArr [itemExample] else JArr [])
        else if strict_eq_str type "object" then
          if truthy (get resolved "properties") then
            obj <- forEach (own_entries (get resolved "properties"))
                     (fun obj kv =>
                        v <- generateExampleFromSchema fuel' spec (snd kv) ;;
                        Ret (assignKey (fst kv) v obj))
                     emptyDraft ;;
            Ret (JObj (draft_own obj))
          else Ret (JObj [])
        else
          if truthy (get (get resolved "oneOf") "0") then
            generateExampleFromSchema fuel' spec (get (get resolved "oneOf") "0")
          else if truthy (get (get resolved "anyOf") "0") then
            generateExampleFromSchema fuel' spec (get (get resolved "anyOf") "0")
          else if truthy (get resolved "allOf") then
            match get resolved "allOf" with
            | JArr subSchemas =>
                merged <- forEach subSchemas
                            (fun merged subSchema =>
                               example <- generateExampleFromSchema fuel' spec subSchema ;;
                               Ret (if truthy example && typeof_object example
                                    then Object_assign merged (own_entries example)
                                    else merged))
                            emptyDraft ;;
                Ret (JObj (draft_own merged))
            | _ => Throw TypeError (* allOf.forEach is not a function *)
            end
          else Ret JNull
  end.

(** ** Spec Loader *)

Definition failedToParse : string :=
  "Failed to parse spec. Please provide valid JSON or YAML.".
Definition missingFields : string :=
  "Invalid OpenAPI spec. Missing required fields.".

Section SpecLoader.
(** The two parsers are library code outside the repository: [None]
    stands for a thrown syntax error. *)
Variable JSON_parse : string -> option JsValue.
Variable yaml_load : string -> option JsValue.

(** The value the two parse attempts leave in [spec], if any. *)
Definition parsedValue (content : string) : option JsValue :=
  match JSON_parse content with
  | Some v => Some v
  | None => yaml_load content
  end.

Definition parseOpenAPISpec (content : string) : Outcome JsValue :=
  spec <- match JSON_parse content with
          | Some v => Ret v
          | None =>
              match yaml_load content with
              | Some v => Ret v
              | None => Throw (Error failedToParse)
              end
          end ;;
  openapi <- member spec "openapi" ;;
  if negb (truthy openapi) then Throw (Error missingFields)
  else
    paths <- member spec "paths" ;;
    if negb (truthy paths) then Throw (Error missingFields)
    else Ret spec.
End SpecLoader.

(** The literal texts of [JSON.parse]; any other text is refused here. *)
Definition parseLiteral (content : string) : option JsValue :=
  if String.eqb content "null" then Some JNull
  else if String.eqb content "true" then Some (JBool true)
  else if String.eqb content "false" then Some (JBool false)
  else None.

(** ** Endpoint Extractor *)

Inductive HttpMethod : Type :=
| M_get | M_post | M_put | M_patch | M_delete | M_options | M_head.

Definition method_name (m : HttpMethod) : string :=
  match m with
  | M_get => "get" | M_post => "post" | M_put => "put" | M_patch => "patch"
  | M_delete => "delete" | M_options => "options" | M_head => "head"
  end.

Definition HTTP_METHODS : list HttpMethod :=
  [M_get; M_post; M_put; M_patch; M_delete; M_options; M_head].

Record ParsedEndpoint : Type := {
  id : string;
  path : string;
  method : HttpMethod;
  operation : JsValue;
  pathParameters : JsValue
}.

(** [s.replace(/[^a-zA-Z0-9]/g, '-')] *)
Definition replace_non_alnum (s : string) : string :=
  string_map (fun c => if is_alnum c then c else "-"%char) s.

Definition endpoint_id (m : HttpMethod) (p : string) : string :=
  replace_non_alnum (method_name m ++ "-" ++ p).

Definition extractEndpoints (spec : JsValue) : Outcome (list ParsedEndpoint) :=
  paths <- member spec "paths" ;;
  entries <- Object_entries paths ;;
  forEach entries
    (fun endpoints entry =>
       let path := fst entry in
       let pathItem := snd entry in
       forEach HTTP_METHODS
         (fun endpoints method =>
            operation <- member pathItem (method_name method) ;;
            if truthy operation then
              Ret (endpoints ++
                   [{| id := endpoint_id method path;
                       path := path;
                       method := method;
                       operation := operation;
                       pathParameters := get pathItem "parameters" |}])%list
            else Ret endpoints)
         endpoints)
    [].

(** ** Tag Grouper *)

Record ParsedTag : Type := {
  name : JsValue;
  description : JsValue;
  endpoints : list ParsedEndpoint
}.

(** Key equality of a [Map].  Primitive keys are equal when they are the
    same value; an object or array is a key by identity, and the values of
    a parsed document are never shared. *)
Definition sameValueZero (a b : JsValue) : bool :=
  match a, b with
  | JUndefined, JUndefined | JNull, JNull | JNaN, JNaN => true
  | JBool x, JBool y => Bool.eqb x y
  | JNum x, JNum y => Z.eqb x y
  | JStr x, JStr y => String.eqb x y
  | _, _ => false
  end.

(** A [Map]: its entries in insertion order. *)
Definition JsMap (V : Type) : Type := list (JsValue * V).

Definition Map_has {V : Type} (k : JsValue) (m : JsMap V) : bool :=
  existsb (fun e => sameValueZero (fst e) k) m.

Fixpoint Map_get {V : Type} (k : JsValue) (m : JsMap V) : option V :=
  match m with
  | [] => None
  | (k', v) :: r => if sameValueZero k' k then Some v else Map_get k r
  end.

Fixpoint Map_adjust {V : Type} (k : JsValue) (f : V -> V) (m : JsMap V) : JsMap V :=
  match m with
  | [] => []
  | (k', v) :: r =>
      if sameValueZero k' k then (k', f v) :: r else (k', v) :: Map_adjust k f r
  end.

Definition Map_set {V : Type} (k : JsValue) (v : V) (m : JsMap V) : JsMap V :=
  if Map_has k m then Map_adjust k (fun _ => v) m else (m ++ [(k, v)])%list.

Definition Map_values {V : Type} (m : JsMap V) : list V := map snd m.

(** [spec.tags?.forEach(tag => tagDescriptions.set(tag.name, tag.description || ''))] *)
Definition tagDescriptionsOf (spec : JsValue) : Outcome (JsMap JsValue) :=
  tags <- member spec "tags" ;;
  if is_nullish tags then Ret []
  else
    match tags with
    | JArr ts =>
        forEach ts
          (fun tagDescriptions tag =>
             n <- member tag "name" ;;
             d <- member tag "description" ;;
             Ret (Map_set n (js_or d (JStr "")) tagDescriptions))
          []
    | _ => Throw TypeError (* spec.tags.forEach is not a function *)
    end.

Definition push_endpoint (endpoint : ParsedEndpoint) (t : ParsedTag) : ParsedTag :=
  {| name := name t; description := description t;
     endpoints := (endpoints t ++ [endpoint])%list |}.

(** One round of [tags.forEach]: the entry is created on first sight and
    the endpoint is pushed to the entry of [tagName]; for a new entry the
    two steps of the source ([set], then [get(...).endpoints.push]) act on
    the entry just created. *)
Definition addToTag (tagDescriptions : JsMap JsValue) (tagMap : JsMap ParsedTag)
    (tagName : JsValue) (endpoint : ParsedEndpoint) : JsMap ParsedTag :=
  if negb (Map_has tagName tagMap) then
    (tagMap ++ [(tagName,
                {| name := tagName;
                   description := match Map_get tagName tagDescriptions with
                                  | Some d => d
                                  | None => JUndefined
                                  end;
                   endpoints := [endpoint] |})])%list
  else Map_adjust tagName (push_endpoint endpoint) tagMap.

(** [endpoint.operation.tags || ['Untagged']], as the list [forEach] walks. *)
Definition tagsOfEndpoint (endpoint : ParsedEndpoint) : Outcome (list JsValue) :=
  declared <- member (operation endpoint) "tags" ;;
  match js_or declared (JArr [JStr "Untagged"]) with
  | JArr ts => Ret ts
  | _ => Throw TypeError (* tags.forEach is not a function *)
  end.

Definition groupEndpointsByTag (spec : JsValue) (eps : list ParsedEndpoint)
  : Outcome (list ParsedTag) :=
  tagDescriptions <- tagDescriptionsOf spec ;;
  tagMap <- forEach eps
              (fun tagMap endpoint =>
                 tags <- tagsOfEndpoint endpoint ;;
                 forEach tags
                   (fun tagMap tagName =>
                      Ret (addToTag tagDescriptions tagMap tagName endpoint))
                   tagMap)
              [] ;;
  Ret (Map_values tagMap).

(** ** Code Generators *)

Definition nl : string := String (ascii_of_nat 10) EmptyString.
Definition dq : string := String (ascii_of_nat 34) EmptyString.
Definition bq : string := String (ascii_of_nat 96) EmptyString.

(** [String(v)] and the conversion of [${v}] in a template literal.  A
    number is printed as its decimal numeral, which is what the engine
    prints for the numbers of the model (integers of magnitude below
    2^53); it prints larger ones rounded or with an exponent. *)
Fixpoint toStringJs (v : JsValue) : string :=
  match v with
  | JUndefined => "undefined"
  | JNull => "null"
  | JBool b => if b then "true" else "false"
  | JNum n => string_of_Z n
  | JNaN => "NaN"
  | JStr s => s
  | JArr xs =>
      join "," (map (fun x => if is_nullish x then "" else toStringJs x) xs)
  | JObj _ => "[object Object]"
  end.

Definition hex_digit (n : nat) : ascii :=
  if (n <? 10)%nat then ascii_of_nat (48 + n) else ascii_of_nat (55 + n).

Definition percent_byte (n : nat) : string :=
  String "%"%char
    (String (hex_digit (n / 16)) (String (hex_digit (n mod 16)) EmptyString)).

(** The characters [encodeURIComponent] leaves alone: letters, digits and
    [- _ . ! ~ * ' ( )]. *)
Definition uri_unreserved (c : ascii) : bool :=
  is_alnum c ||
  existsb (Ascii.eqb c)
    ["-"; "_"; "."; "!"; "~"; "*"; "'"; "("; ")"]%char.

(** [encodeURIComponent(s)]: every other code unit becomes the
    percent-escapes of its UTF-8 bytes (one byte below 128, two from 128
    to 255). *)
Fixpoint encodeURIComponent (s : string) : string :=
  match s with
  | EmptyString => EmptyString
  | String c r =>
      let n := nat_of_ascii c in
      (if uri_unreserved c then String c EmptyString
       else if (n <? 128)%nat then percent_byte n
       else percent_byte (192 + n / 64) ++ percent_byte (128 + n mod 64))
      ++ encodeURIComponent r
  end.

Record GeneratorOptions : Type := {
  baseUrl : string;
  headers : option (list (string * string));
  authToken : option string
}.

(** [params.filter(p => p.in === loc)] *)
Definition paramsIn (loc : string) (params : list JsValue) : Outcome (list JsValue) :=
  filterM (fun p => i <- member p "in" ;; Ret (strict_eq_str i loc)) params.

(** [p.example || p.schema?.example || fallback] *)
Definition exampleOr (p : JsValue) (fallback : string) : JsValue :=
  js_or (js_or (get p "example") (get (get p "schema") "example")) (JStr fallback).

(** The element [map] builds for one query parameter. *)
Definition queryPair (p : JsValue) : string :=
  let value := exampleOr p "value" in
  toStringJs (get p "name") ++ "=" ++ encodeURIComponent (toStringJs value).


Definition buildQueryString (params : list JsValue) : Outcome string :=
  queryParams <- paramsIn "query" params ;;
  if (List.length queryParams =? 0)%nat then Ret ""
  else
    let pairs := map queryPair queryParams in
    Ret ("?" ++ join "&" pairs).

(** [[...(a || []), ...]]: the elements a spread takes from [a || []]. *)
Definition spread (v : JsValue) : Outcome (list JsValue) :=
  match js_or v (JArr []) with
  | JArr xs => Ret xs
  | JStr s => Ret (map JStr (chars s))
  | _ => Throw TypeError (* not iterable *)
  end.

Definition allParamsOf (endpoint : ParsedEndpoint) : Outcome (list JsValue) :=
  fromPath <- spread (pathParameters endpoint) ;;
  declared <- member (operation endpoint) "parameters" ;;
  fromOperation <- spread declared ;;
  Ret (fromPath ++ fromOperation)%list.

Definition getRequestBody (fuel : nat) (spec : JsValue) (endpoint : ParsedEndpoint)
  : Outcome JsValue :=
  requestBody <- member (operation endpoint) "requestBody" ;;
  let content := get requestBody "content" in
  if negb (truthy content) then Ret JNull
  else
    let jsonContent := get content "application/json" in
    if truthy (get jsonContent "example") then Ret (get jsonContent "example")
    else if truthy (get jsonContent "schema") then
      generateExampleFromSchema fuel spec (get jsonContent "schema")
    else Ret JNull.

(** [body && verbs.includes(method)] *)
Definition includesBody (body : JsValue) (verbs : list string) (method : string) : bool :=
  truthy body && existsb (String.eqb method) verbs.

Inductive CodeLanguage : Type := curl | javascript | python | go.

Section Generators.
(** Built-ins whose text no property below depends on:
    [JSON.stringify(v, null, indent)] and
    [subject.replace(pattern, replacement)] with a string pattern. *)
Variable JSON_stringify : JsValue -> nat -> string.
Variable String_replace : string -> string -> string -> string.

Definition buildUrl (baseUrl path : string) (params : list JsValue) : Outcome string :=
  let url := baseUrl ++ path in
  pathParams <- paramsIn "path" params ;;
  Ret (fold_left
         (fun url param =>
            let slot := "{" ++ toStringJs (get param "name") ++ "}" in
            let example := exampleOr param slot in
            String_replace url slot (toStringJs example))
         pathParams url).

Definition requestUrl (endpoint : ParsedEndpoint) (options : GeneratorOptions)
    (allParams : list JsValue) : Outcome string :=
  u <- buildUrl (baseUrl options) (path endpoint) allParams ;;
  q <- buildQueryString allParams ;;
  Ret (u ++ q).

(** [{'Content-Type': 'application/json', ...options.headers}], then the
    bearer header when a token is given. *)
Definition requestHeaders (options : GeneratorOptions) : list (string * string) :=
  let headers :=
    obj_assign [("Content-Type", "application/json")]
      (match headers options with Some h => h | None => [] end) in
  match authToken options with
  | Some token =>
      if negb (String.eqb token "") then
        obj_set "Authorization" ("Bearer " ++ token) headers
      else headers
  | None => headers
  end.

Definition headersObject (headers : list (string * string)) : JsValue :=
  JObj (map (fun kv => (fst kv, JStr (snd kv))) headers).

(** [text.split('\n').join('\n  ')] *)
Definition indentLines (text : string) : string :=
  join (nl ++ "  ") (split (ascii_of_nat 10) text).

Definition generateCurl (fuel : nat) (spec : JsValue) (endpoint : ParsedEndpoint)
    (options : GeneratorOptions) : Outcome string :=
  allParams <- allParamsOf endpoint ;;
  url <- requestUrl endpoint options allParams ;;
  let method := toUpperCase (method_name (method endpoint)) in
  body <- getRequestBody fuel spec endpoint ;;
  let cmd := "curl -X " ++ method ++ " " ++ dq ++ url ++ dq in
  let headers := requestHeaders options in
  let cmd :=
    fold_left
      (fun cmd kv =>
         cmd ++ " \" ++ nl ++ "  -H " ++ dq ++ fst kv ++ ": " ++ snd kv ++ dq)
      headers cmd in
  let cmd :=
    if includesBody body ["POST"; "PUT"; "PATCH"] method then
      cmd ++ " \" ++ nl ++ "  -d '" ++ JSON_stringify body 2 ++ "'"
    else cmd in
  Ret cmd.

Definition generateJavaScript (fuel : nat) (spec : JsValue)
    (endpoint : ParsedEndpoint) (options : GeneratorOptions) : Outcome string :=
  allParams <- allParamsOf endpoint ;;
  url <- requestUrl endpoint options allParams ;;
  let method := toUpperCase (method_name (method endpoint)) in
  body <- getRequestBody fuel spec endpoint ;;
  let headers := requestHeaders options in
  let code :=
    "const response = await fetch(" ++ dq ++ url ++ dq ++ ", {" ++ nl ++
    "  method: " ++ dq ++ method ++ dq ++ "," ++ nl ++
    "  headers: " ++ indentLines (JSON_stringify (headersObject headers) 4) ++ "," in
  let code :=
    if includesBody body ["POST"; "PUT"; "PATCH"] method then
      code ++ nl ++ "  body: JSON.stringify(" ++
      indentLines (JSON_stringify body 4) ++ "),"
    else code in
  let code :=
    code ++ nl ++
    "});" ++ nl ++
    nl ++
    "const data = await response.json();" ++ nl ++
    "console.log(data);" in
  Ret code.

Definition generatePython (fuel : nat) (spec : JsValue)
    (endpoint : ParsedEndpoint) (options : GeneratorOptions) : Outcome string :=
  allParams <- allParamsOf endpoint ;;
  url <- requestUrl endpoint options allParams ;;
  let method := toLowerCase (method_name (method endpoint)) in
  body <- getRequestBody fuel spec endpoint ;;
  let headers := requestHeaders options in
  let code :=
    "import requests" ++ nl ++
    nl ++
    "url = " ++ dq ++ url ++ dq ++ nl ++
    "headers = " ++ JSON_stringify (headersObject headers) 4 ++ nl in
  let code :=
    if includesBody body ["post"; "put"; "patch"] method then
      code ++ "payload = " ++ JSON_stringify body 4 ++ nl ++
      nl ++
      "response = requests." ++ method ++ "(url, headers=headers, json=payload)"
    else
      code ++ nl ++
      "response = requests." ++ method ++ "(url, headers=headers)" in
  let code :=
    code ++ nl ++
    nl ++
    "print(response.json())" in
  Ret code.

Definition generateGo (fuel : nat) (spec : JsValue)
    (endpoint : ParsedEndpoint) (options : GeneratorOptions) : Outcome string :=
  allParams <- allParamsOf endpoint ;;
  url <- requestUrl endpoint options allParams ;;
  let method := toUpperCase (method_name (method endpoint)) in
  body <- getRequestBody fuel spec endpoint ;;
  let headers := requestHeaders options in
  let bodyCode :=
    if includesBody body ["POST"; "PUT"; "PATCH"] method then
      nl ++
      "    payload := []byte(" ++ bq ++ JSON_stringify body 2 ++ bq ++ ")" ++ nl ++
      "    req, err := http.NewRequest(" ++ dq ++ method ++ dq ++
      ", url, bytes.NewBuffer(payload))"
    else
      nl ++
      "    req, err := http.NewRequest(" ++ dq ++ method ++ dq ++ ", url, nil)" in
  let headersCode :=
    join nl
      (map (fun kv =>
              "    req.Header.Set(" ++ dq ++ fst kv ++ dq ++ ", " ++
              dq ++ snd kv ++ dq ++ ")")
           headers) in
  Ret (join nl
         ["package main";
          "";
          "import (";
          "    " ++ dq ++ "bytes" ++ dq;
          "    " ++ dq ++ "fmt" ++ dq;
          "    " ++ dq ++ "io" ++ dq;
          "    " ++ dq ++ "net/http" ++ dq;
          ")";
          "";
          "func main() {";
          "    url := " ++ dq ++ url ++ dq;
          bodyCode;
          "    if err != nil {";
          "        panic(err)";
          "    }";
          "";
          headersCode;
          "";
          "    client := &http.Client{}";
          "    resp, err := client.Do(req)";
          "    if err != nil {";
          "        panic(err)";
          "    }";
          "    defer resp.Body.Close()";
          "";
          "    body, _ := io.ReadAll(resp.Body)";
          "    fmt.Println(string(body))";
          "}"]).

Definition generateCode (fuel : nat) (language : CodeLanguage) (spec : JsValue)
    (endpoint : ParsedEndpoint) (options : GeneratorOptions) : Outcome string :=
  match language with
  | curl => generateCurl fuel spec endpoint options
  | javascript => generateJavaScript fuel spec endpoint options
  | python => generatePython fuel spec endpoint options
  | go => generateGo fuel spec endpoint options
  end.
End Generators.

(** The same endpoint with no request body declared on its operation. *)
Definition remove_key {V : Type} (k : string) (ps : list (string * V))
  : list (string * V) :=
  filter (fun kv => negb (String.eqb (fst kv) k)) ps.

Definition withoutRequestBody (endpoint : ParsedEndpoint) : ParsedEndpoint :=
  {| id := id endpoint;
     path := path endpoint;
     method := method endpoint;
     operation := match operation endpoint with
                  | JObj ps => JObj (remove_key "requestBody" ps)
                  | v => v
                  end;
     pathParameters := pathParameters endpoint |}.

(** ** Snippets without a body *)

Section RequestOnly.
Variable JSON_stringify : JsValue -> nat -> string.

(** What each generator writes when it writes no body: the text it makes
    of the URL, the verb and the headers alone.  No body value and no
    rendering of one occurs in these texts; the request of the Go snippet
    is built with [nil] for a body. *)
Definition curlRequest (url : string) (m : HttpMethod)
    (headers : list (string * string)) : string :=
  let method := toUpperCase (method_name m) in
  let cmd := "curl -X " ++ method ++ " " ++ dq ++ url ++ dq in
  fold_left
    (fun cmd kv =>
       cmd ++ " \" ++ nl ++ "  -H " ++ dq ++ fst kv ++ ": " ++ snd kv ++ dq)
    headers cmd.

Definition javaScriptRequest (url : string) (m : HttpMethod)
    (headers : list (string * string)) : string :=
  let method := toUpperCase (method_name m) in
  let code :=
    "const response = await fetch(" ++ dq ++ url ++ dq ++ ", {" ++ nl ++
    "  method: " ++ dq ++ method ++ dq ++ "," ++ nl ++
    "  headers: " ++ indentLines (JSON_stringify (headersObject headers) 4) ++ "," in
  code ++ nl ++
  "});" ++ nl ++
  nl ++
  "const data = await response.json();" ++ nl ++
  "console.log(data);".

Definition pythonRequest (url : string) (m : HttpMethod)
    (headers : list (string * string)) : string :=
  let method := toLowerCase (method_name m) in
  let code :=
    "import requests" ++ nl ++
    nl ++
    "url = " ++ dq ++ url ++ dq ++ nl ++
    "headers = " ++ JSON_stringify (headersObject headers) 4 ++ nl in
  let code :=
    code ++ nl ++
    "response = requests." ++ method ++ "(url, headers=headers)" in
  code ++ nl ++
  nl ++
  "print(response.json())".

Definition goRequest (url : string) (m : HttpMethod)
    (headers : list (string * string)) : string :=
  let method := toUpperCase (method_name m) in
  let bodyCode :=
    nl ++
    "    req, err := http.NewRequest(" ++ dq ++ method ++ dq ++ ", url, nil)" in
  let headersCode :=
    join nl
      (map (fun kv =>
              "    req.Header.Set(" ++ dq ++ fst kv ++ dq ++ ", " ++
              dq ++ snd kv ++ dq ++ ")")
           headers) in
  join nl
    ["package main";
     "";
     "import (";
     "    " ++ dq ++ "bytes" ++ dq;
     "    " ++ dq ++ "fmt" ++ dq;
     "    " ++ dq ++ "io" ++ dq;
     "    " ++ dq ++ "net/http" ++ dq;
     ")";
     "";
     "func main() {";
     "    url := " ++ dq ++ url ++ dq;
     bodyCode;
     "    if err != nil {";
     "        panic(err)";
     "    }";
     "";
     headersCode;
     "";
     "    client := &http.Client{}";
     "    resp, err := client.Do(req)";
     "    if err != nil {";
     "        panic(err)";
     "    }";
     "    defer resp.Body.Close()";
     "";
     "    body, _ := io.ReadAll(resp.Body)";
     "    fmt.Println(string(body))";
     "}"].

Definition requestOnly (language : CodeLanguage) (url : string) (m : HttpMethod)
    (headers : list (string * string)) : string :=
  match language with
  | curl => curlRequest url m headers
  | javascript => javaScriptRequest url m headers
  | python => pythonRequest url m headers
  | go => goRequest url m headers
  end.
End RequestOnly.

(** A [POST] whose body schema synthesizes to 0: a body verb, and no body
    value that passes the test [if (body && ...)]. *)
Definition createCounter : ParsedEndpoint :=
  {| id := "post--counters"; path := "/counters"; method := M_post;
     operation :=
       JObj [("requestBody",
              JObj [("content",
                     JObj [("application/json",
                            JObj [("schema", JObj [("type", JStr "integer")])])])])];
     pathParameters := JUndefined |}.

(** ** Endpoints in declaration order *)

(** The endpoints one path item gives: one per verb, in the order of
    [HTTP_METHODS], for which the item has an operation. *)
Definition endpointsOfPathItem (path : string) (pathItem : JsValue)
  : list ParsedEndpoint :=
  flat_map
    (fun m =>
       if truthy (get pathItem (method_name m)) then
         [{| id := endpoint_id m path;
             path := path;
             method := m;
             operation := get pathItem (method_name m);
             pathParameters := get pathItem "parameters" |}]
       else [])
    HTTP_METHODS.

(** Path by path in declaration order, verb by verb within a path. *)
Definition endpointsInOrder (paths : JsValue) : list ParsedEndpoint :=
  flat_map (fun entry => endpointsOfPathItem (fst entry) (snd entry))
    (own_entries paths).

Definition abPaths (opA opPost opB : JsValue) : JsValue :=
  JObj [("/a", JObj [("get", opA); ("post", opPost)]);
        ("/b", JObj [("get", opB)])].

Definition abSpec : JsValue :=
  JObj [("openapi", JStr "3.0.0");
        ("paths",
         abPaths (JObj [("tags", JArr [JStr "X"; JStr "Y"])])
                 (JObj [("summary", JStr "create")])
                 (JObj [("tags", JArr [JStr "Y"])]));
        ("tags", JArr [JObj [("name", JStr "X"); ("description", JStr "the X")];
                       JObj [("name", JStr "Y")]])].

(** ** Query parameters *)


(** A query parameter with no example and no default anywhere. *)
Definition bareQueryParam : JsValue :=
  JObj [("name", JStr "q"); ("in", JStr "query");
        ("schema", JObj [("type", JStr "string")])].




(** ** Tags in order of first encounter *)

(** The tag names [groupEndpointsByTag] walks for one endpoint. *)
Definition declaredTags (endpoint : ParsedEndpoint) : list JsValue :=
  match js_or (get (operation endpoint) "tags") (JArr [JStr "Untagged"]) with
  | JArr ts => ts
  | _ => []
  end.

(** Every (tag name, endpoint) visit of the scan, in scan order. *)
Definition taggings (eps : list ParsedEndpoint) : list (JsValue * ParsedEndpoint) :=
  flat_map (fun ep => map (fun t => (t, ep)) (declaredTags ep)) eps.

(** Whether [t] is among [names], as a [Map] compares keys. *)
Definition seenIn (names : list JsValue) (t : JsValue) : bool :=
  existsb (fun s => sameValueZero s t) names.

(** The names of [ts] not met before, in the order they are met. *)
Fixpoint firstSeen (seen ts : list JsValue) : list JsValue :=
  match ts with
  | [] => []
  | t :: r =>
      if seenIn seen t then firstSeen seen r
      else t :: firstSeen (seen ++ [t])%list r
  end.

(** The endpoints visited under tag [t], in scan order. *)
Definition membersOf (t : JsValue) (visits : list (JsValue * ParsedEndpoint))
  : list ParsedEndpoint :=
  map snd (filter (fun v => sameValueZero (fst v) t) visits).

(** The last entry of the top-level tag list that is named [t]. *)
Fixpoint lastNamed (t : JsValue) (tags : list JsValue) : option JsValue :=
  match tags with
  | [] => None
  | tag :: r =>
      match lastNamed t r with
      | Some found => Some found
      | None => if sameValueZero (get tag "name") t then Some tag else None
      end
  end.

(** The description the top-level tag list gives to [t]: the entry's
    description, the empty string when the entry has none, and nothing
    when no entry is named [t]. *)
Definition tagDescription (spec : JsValue) (t : JsValue) : JsValue :=
  match get spec "tags" with
  | JArr tags =>
      match lastNamed t tags with
      | Some tag => js_or (get tag "description") (JStr "")
      | None => JUndefined
      end
  | _ => JUndefined
  end.

Definition is_primitive (v : JsValue) : bool :=
  match v with JArr _ | JObj _ => false | _ => true end.

(** The top-level tag list is absent or an array of objects. *)
Definition tagListOk (spec : JsValue) : bool :=
  negb (is_nullish spec) &&
  match get spec "tags" with
  | JUndefined | JNull => true
  | JArr tags => forallb (fun tag => negb (is_nullish tag)) tags
  | _ => false
  end.

(** The endpoint has an operation whose tags are absent or an array of
    primitive names (strings, by the declared type). *)
Definition tagsOk (endpoint : ParsedEndpoint) : bool :=
  negb (is_nullish (operation endpoint)) &&
  match js_or (get (operation endpoint) "tags") (JArr [JStr "Untagged"]) with
  | JArr ts => forallb is_primitive ts
  | _ => false
  end.

Definition tagBucket (spec : JsValue) (visits : list (JsValue * ParsedEndpoint))
    (t : JsValue) : ParsedTag :=
  {| name := t;
     description := tagDescription spec t;
     endpoints := membersOf t visits |}.

Definition abEndpoints : list ParsedEndpoint :=
  endpointsInOrder (get abSpec "paths").

Definition endpointOf (op : JsValue) : ParsedEndpoint :=
  {| id := "get--pets"; path := "/pets"; method := M_get;
     operation := op; pathParameters := JUndefined |}.

(** The three verbs that carry a body: create, replace, partial update. *)
Definition isBodyVerb (m : HttpMethod) : bool :=
  match m with
  | M_post | M_put | M_patch => true
  | _ => false
  end.

(** ** Sample documents *)

Definition petSpec : JsValue :=
  JObj [("openapi", JStr "3.0.3");
        ("paths", JObj []);
        ("components", JObj [("schemas", JObj [
           ("Pet", JObj [("type", JStr "object"); ("example", JObj [("id", JNum 7)])]);
           ("PetRef", JObj [("$ref", JStr "#/components/schemas/Pet")]);
           ("Count", JObj [("type", JStr "integer"); ("default", JNum 3)]);
           ("Names", JObj [("type", JStr "array");
                           ("items", JObj [("type", JStr "string")])]);
           ("Zero", JNum 0);
           ("Empty", JStr "")])])].

Definition arrayOf (itemType : string) : JsValue :=
  JObj [("type", JStr "array"); ("items", JObj [("type", JStr itemType)])].

(** A read endpoint whose operation declares a request body schema. *)
Definition getWithBody : ParsedEndpoint :=
  endpointOf
    (JObj [("requestBody",
            JObj [("content",
                   JObj [("application/json",
                          JObj [("schema", JObj [("type", JStr "string")])])])])]).

Definition sampleOptions : GeneratorOptions :=
  {| baseUrl := "https://api.example.com"; headers := None; authToken := Some "t0k" |}.

(** Plain property accesses from a root, one per segment. *)
Definition walk (root : JsValue) (parts : list string) : JsValue :=
  fold_left get parts root.

(** ** Reference chains *)

(** Whether the character [c] occurs in [s]. *)
Fixpoint occurs (c : ascii) (s : string) : bool :=
  match s with
  | EmptyString => false
  | String c' r => Ascii.eqb c' c || occurs c r
  end.

(** [node] is a reference whose target in [spec] is [target]: the step
    [resolveSchema] follows. *)
Definition RefersTo (spec node target : JsValue) : Prop :=
  truthy node = true /\
  exists ref,
    get node "$ref" = JStr ref /\ ref <> "" /\
    resolveRef spec ref = target /\ truthy target = true.

(** A chain of [k] references from [node] to [final]. *)
Fixpoint RefChain (spec : JsValue) (k : nat) (node final : JsValue) : Prop :=
  match k with
  | O => node = final
  | S k' => exists target, RefersTo spec node target /\ RefChain spec k' target final
  end.

(** Two schemas that refer to each other. *)
Definition pingPongSpec : JsValue :=
  JObj [("components", JObj [("schemas", JObj [
     ("Ping", JObj [("$ref", JStr "#/components/schemas/Pong")]);
     ("Pong", JObj [("$ref", JStr "#/components/schemas/Ping")])])])].

(** ** Merged examples *)

(** The mapping the [allOf] case builds from the examples of its branches. *)
Definition mergeExamples (examples : list JsValue) : list (string * JsValue) :=
  draft_own
    (fold_left
       (fun merged example =>
          if truthy example && typeof_object example
          then Object_assign merged (own_entries example)
          else merged)
       examples emptyDraft).

(** The value under [k] in the last example that is an object (a mapping,
    or an array read by its indices) and has [k]. *)
Fixpoint lastBinding (k : string) (examples : list JsValue) : option JsValue :=
  match examples with
  | [] => None
  | example :: r =>
      match lastBinding k r with
      | Some v => Some v
      | None =>
          if truthy example && typeof_object example
          then lookup k (own_entries example)
          else None
      end
  end.

(** An example whose keys are pairwise distinct, as the keys of every
    object and the indices of every array are. *)
Definition distinctKeys (example : JsValue) : Prop :=
  NoDup (map fst (own_entries example)).

(** What a sequence of assignments to a fresh object leaves as own
    properties: every key but [__proto__]. *)
Definition assigned (entries : list (string * JsValue)) : list (string * JsValue) :=
  filter (fun kv => negb (String.eqb (fst kv) "__proto__")) entries.

(** The [type] tags that [generateExampleFromSchema] has a case for. *)
Definition typedCase (type : JsValue) : bool :=
  existsb (strict_eq_str type)
    ["string"; "number"; "integer"; "boolean"; "array"; "object"].

(** A tree-shaped schema: an array whose items refer back to the schema. *)
Definition treeSpec : JsValue :=
  JObj [("components", JObj [("schemas", JObj [
     ("Tree", JObj [("type", JStr "array");
                    ("items", JObj [("$ref", JStr "#/components/schemas/Tree")])])])])].

(** An object schema with a plain, a broken and a working reference. *)
Definition profileSchema : JsValue :=
  JObj [("type", JStr "object");
        ("properties",
         JObj [("name", JObj [("type", JStr "string")]);
               ("owner", JObj [("$ref", JStr "#/components/schemas/Missing")]);
               ("tags", JObj [("$ref", JStr "#/components/schemas/Names")])])].

(** An object schema one of whose properties is named [__proto__]. *)
Definition shadowedSchema : JsValue :=
  JObj [("type", JStr "object");
        ("properties",
         JObj [("a", JObj [("type", JStr "integer")]);
               ("__proto__", JObj [("type", JStr "string")]);
               ("b", JObj [("type", JStr "boolean")])])].

(** Two object branches that both define [id], with a scalar and an array
    branch between them. *)
Definition mergedPetSchema : JsValue :=
  JObj [("allOf",
         JArr [JObj [("type", JStr "object");
                     ("properties", JObj [("id", JObj [("type", JStr "integer")]);
                                          ("name", JObj [("type", JStr "string")])])];
               JObj [("type", JStr "string")];
               JObj [("type", JStr "array"); ("items", JObj [("type", JStr "string")])];
               JObj [("type", JStr "object");
                     ("properties", JObj [("id", JObj [("type", JStr "string");
                                                       ("format", JStr "uuid")])])]])].

(** ** Schema names *)

(** [getSchemaName]; the recursion into [items] costs one unit of fuel. *)
Fixpoint getSchemaName (fuel : nat) (schema : JsValue) : Outcome JsValue :=
  if negb (truthy schema) then Ret (JStr "unknown")
  else
    let r := get schema "$ref" in
    if truthy r then
      match r with
      | JStr ref =>
          let parts := split "/" ref in
          Ret (JStr (last parts ""))
      | _ => Throw TypeError (* schema.$ref.split is not a function *)
      end
    else if strict_eq_str (get schema "type") "array" && truthy (get schema "items") then
      match fuel with
      | O => OutOfFuel
      | S fuel' =>
          inner <- getSchemaName fuel' (get schema "items") ;;
          Ret (JStr (toStringJs inner ++ "[]"))
      end
    else Ret (js_or (get schema "type") (JStr "unknown")).

(** How deeply arrays and objects are nested in a value. *)
Fixpoint depth (v : JsValue) : nat :=
  match v with
  | JArr xs => S (fold_right (fun x d => Nat.max (depth x) d) 0 xs)
  | JObj ps => S (fold_right (fun p d => Nat.max (depth (snd p)) d) 0 ps)
  | _ => 0
  end.

(** [n] array schemas around [items]. *)
Fixpoint nestedArrays (n : nat) (items : JsValue) : JsValue :=
  match n with
  | O => items
  | S k => JObj [("type", JStr "array"); ("items", nestedArrays k items)]
  end.

(** [n] times the suffix "[]". *)
Fixpoint brackets (n : nat) : string :=
  match n with
  | O => ""
  | S k => brackets k ++ "[]"
  end.

(** ** Replacing a slot *)

(** Where [pattern] first occurs in [subject]: the text before it and the
    text after it. *)
Fixpoint firstOccurrence (pattern subject : string) {struct subject}
  : option (string * string) :=
  if String.prefix pattern subject then
    Some (EmptyString, slice (String.length pattern) subject)
  else
    match subject with
    | EmptyString => None
    | String c rest =>
        match firstOccurrence pattern rest with
        | Some (before, after) => Some (String c before, after)
        | None => None
        end
    end.

(** The replacement text with its dollar patterns expanded: [$$] is a
    dollar sign, [$&] the matched text, [$`] the text before the match and
    [$'] the text after it; a string pattern has no groups, so any other
    dollar sign stands for itself. *)
Fixpoint getSubstitution (matched before after replacement : string) : string :=
  match replacement with
  | EmptyString => EmptyString
  | String c rest =>
      if Ascii.eqb c "$" then
        match rest with
        | String d rest' =>
            if Ascii.eqb d "$" then
              String "$" (getSubstitution matched before after rest')
            else if Ascii.eqb d "&" then
              matched ++ getSubstitution matched before after rest'
            else if Ascii.eqb d "`" then
              before ++ getSubstitution matched before after rest'
            else if Ascii.eqb d "'" then
              after ++ getSubstitution matched before after rest'
            else String c (getSubstitution matched before after rest)
        | EmptyString => String c EmptyString
        end
      else String c (getSubstitution matched before after rest)
  end.

(** [subject.replace(pattern, replacement)] with a string pattern: the
    first occurrence only. *)
Definition jsReplace (subject pattern replacement : string) : string :=
  match firstOccurrence pattern subject with
  | None => subject
  | Some (before, after) =>
      before ++ getSubstitution pattern before after replacement ++ after
  end.

(** The path-scoped parameters, in declaration order. *)
Definition pathScoped (params : list JsValue) : list JsValue :=
  filter (fun p => strict_eq_str (get p "in") "path") params.

(** A path parameter with an example. *)
Definition petIdParam : JsValue :=
  JObj [("name", JStr "petId"); ("in", JStr "path"); ("example", JNum 123)].

(** ** Request headers of the caller *)

(** [options.headers], nothing when it is not given. *)
Definition callerHeaders (options : GeneratorOptions) : list (string * string) :=
  match headers options with Some h => h | None => [] end.

(** [options.authToken] when it is given and not empty. *)
Definition bearerToken (options : GeneratorOptions) : option string :=
  match authToken options with
  | Some token => if String.eqb token "" then None else Some token
  | None => None
  end.

(** Characters with a meaning of their own in a URL or a query string. *)
Definition urlDelimiters : list ascii :=
  ["&"; "="; "?"; "#"; " "; "/"; "+"; ":"; ","; ";"; "@"]%char.

(** A create endpoint whose request body carries a literal example. *)
Definition createPet : ParsedEndpoint :=
  {| id := "post--pets"; path := "/pets"; method := M_post;
     operation :=
       JObj [("requestBody",
              JObj [("content",
                     JObj [("application/json",
                            JObj [("example", JStr "rex")])])])];
     pathParameters := JUndefined |}.

(** A parser that reads every text as the document [v]. *)
Definition readsAs (v : JsValue) : string -> option JsValue := fun _ => Some v.

(** ** The specification hook ([useOpenAPISpec]) *)

(** The state of the hook; [state_error] holds the error whose message is
    shown. *)
Record HookState : Type := {
  state_spec : option JsValue;
  state_endpoints : list ParsedEndpoint;
  state_tags : list ParsedTag;
  state_loading : bool;
  state_error : option JsError
}.

Section Hook.
Variable JSON_parse : string -> option JsValue.
Variable yaml_load : string -> option JsValue.
(** The built-in document of [data/sampleSpec]. *)
Variable sampleOpenAPISpec : JsValue.

(** The state the hook starts in. *)
Definition initialState : Outcome HookState :=
  eps <- extractEndpoints sampleOpenAPISpec ;;
  eps' <- extractEndpoints sampleOpenAPISpec ;;
  tags <- groupEndpointsByTag sampleOpenAPISpec eps' ;;
  Ret {| state_spec := Some sampleOpenAPISpec;
         state_endpoints := eps;
         state_tags := tags;
         state_loading := false;
         state_error := None |}.

(** The state after [loadSpec(content)] has run to its end. *)
Definition loadSpec (st : HookState) (content : string) : Outcome HookState :=
  match
    (parsed <- parseOpenAPISpec JSON_parse yaml_load content ;;
     parsedEndpoints <- extractEndpoints parsed ;;
     parsedTags <- groupEndpointsByTag parsed parsedEndpoints ;;
     Ret (parsed, parsedEndpoints, parsedTags))
  with
  | Ret (parsed, parsedEndpoints, parsedTags) =>
      Ret {| state_spec := Some parsed;
             state_endpoints := parsedEndpoints;
             state_tags := parsedTags;
             state_loading := false;
             state_error := None |}
  | Throw err =>
      Ret {| state_spec := state_spec st;
             state_endpoints := state_endpoints st;
             state_tags := state_tags st;
             state_loading := false;
             state_error := Some err |}
  | OutOfFuel => OutOfFuel
  end.

(** The state after [resetToSample()]. *)
Definition resetToSample (st : HookState) : Outcome HookState :=
  parsedEndpoints <- extractEndpoints sampleOpenAPISpec ;;
  parsedTags <- groupEndpointsByTag sampleOpenAPISpec parsedEndpoints ;;
  Ret {| state_spec := Some sampleOpenAPISpec;
         state_endpoints := parsedEndpoints;
         state_tags := parsedTags;
         state_loading := state_loading st;
         state_error := None |}.

(** What the user can do to the state. *)
Inductive HookAction : Type :=
| LoadSpec (content : string)
| ResetToSample.

Definition perform (st : HookState) (a : HookAction) : Outcome HookState :=
  match a with
  | LoadSpec content => loadSpec st content
  | ResetToSample => resetToSample st
  end.
End Hook.

(** The endpoint and tag views are the ones derived from the installed
    specification. *)
Definition viewsDerived (st : HookState) : Prop :=
  match state_spec st with
  | Some spec =>
      extractEndpoints spec = Ret (state_endpoints st) /\
      groupEndpointsByTag spec (state_endpoints st) = Ret (state_tags st)
  | None => True
  end.

(** ** The sidebar search ([filteredTags]) *)

Fixpoint mapM {A B : Type} (f : A -> Outcome B) (xs : list A) : Outcome (list B) :=
  match xs with
  | [] => Ret []
  | x :: r => y <- f x ;; ys <- mapM f r ;; Ret (y :: ys)
  end.

(** The lower-case form of a code unit below 256: the letters A-Z and the
    capital letters of Latin-1 (U+00C0 to U+00DE, the multiplication sign
    apart) move up by 32. *)
Definition lowerCodeUnit (c : ascii) : ascii :=
  let n := nat_of_ascii c in
  if ((65 <=? n)%nat && (n <=? 90)%nat)
     || ((192 <=? n)%nat && (n <=? 222)%nat && negb (n =? 215)%nat)
  then ascii_of_nat (n + 32) else c.

(** [s.toLowerCase()] on any text of the model. *)
Definition jsToLowerCase : string -> string := string_map lowerCodeUnit.

(** [s.includes(query)] *)
Definition includes (s query : string) : bool :=
  match firstOccurrence query s with
  | Some _ => true
  | None => false
  end.

(** The callback of [tag.endpoints.filter]: path, then summary, then
    verb. *)
Definition matchesQuery (query : string) (ep : ParsedEndpoint) : Outcome bool :=
  if includes (jsToLowerCase (path ep)) query then Ret true
  else
    summary <- member (operation ep) "summary" ;;
    inSummary <- (if is_nullish summary then Ret false
                  else match summary with
                       | JStr s => Ret (includes (jsToLowerCase s) query)
                       | _ => Throw TypeError (* summary.toLowerCase is not a function *)
                       end) ;;
    if inSummary then Ret true
    else Ret (includes (jsToLowerCase (method_name (method ep))) query).

Definition filteredTags (tags : list ParsedTag) (searchQuery : string)
  : Outcome (list ParsedTag) :=
  if String.eqb searchQuery "" then Ret tags
  else
    let query := jsToLowerCase searchQuery in
    mapped <- mapM
                (fun tag =>
                   kept <- filterM (matchesQuery query) (endpoints tag) ;;
                   Ret {| name := name tag;
                          description := description tag;
                          endpoints := kept |})
                tags ;;
    Ret (filter (fun tag => (0 <? List.length (endpoints tag))%nat) mapped).

(** The grouped view of the sample document. *)
Definition abTags : list ParsedTag :=
  map (tagBucket abSpec (taggings abEndpoints))
      (firstSeen [] (map fst (taggings abEndpoints))).

(** * Properties *)

(** ** Reference Resolver *)

(** The loop gives up at the first segment whose value is falsy. *)
Lemma resolveRef_loop_falsy :
  forall pre part post current,
    truthy (get (walk current pre) part) = false ->
    resolveRef_loop (pre ++ part :: post)%list current = JUndefined.
Proof.
  induction pre as [|p pre IH]; intros part post current Hf.
  - simpl in *. now rewrite Hf.
  - simpl. destruct (truthy (get current p)); simpl.
    + apply IH. exact Hf.
    + reflexivity.
Qed.

(** C10: resolution is absent as soon as the value reached at some segment
    is falsy, also when the property is there: a target that is 0, the
    empty string, null, false or NaN resolves to absent. *)
Theorem resolveRef_falsy_segment_absent :
  (forall (spec : JsValue) (ref : string) pre part post,
      split "/" (slice 2 ref) = (pre ++ part :: post)%list ->
      truthy (get (walk spec pre) part) = false ->
      resolveRef spec ref = JUndefined) /\
  (forall v, In v [JNum 0; JStr ""; JNull; JBool false; JNaN] ->
      get (JObj [("target", v)]) "target" = v /\
      resolveRef (JObj [("target", v)]) "#/target" = JUndefined).
Proof.
  split.
  - intros spec ref pre part post Hs Hf. unfold resolveRef.
    destruct (startsWith "#/" ref); cbn [negb]; [|reflexivity].
    rewrite Hs. now apply resolveRef_loop_falsy.
  - intros v Hv. simpl in Hv.
    repeat (destruct Hv as [<- | Hv]; [split; reflexivity|]). destruct Hv.
Qed.

Lemma resolveRef_falsy_segment_absent_witness :
  resolveRef petSpec "#/components/schemas/Zero/type" = JUndefined /\
  resolveRef (JObj [("target", JStr "")]) "#/target" = JUndefined.
Proof.
  split.
  - apply (proj1 resolveRef_falsy_segment_absent petSpec
             "#/components/schemas/Zero/type"
             ["components"; "schemas"] "Zero" ["type"]); reflexivity.
  - apply (proj2 resolveRef_falsy_segment_absent (JStr "")).
    simpl. tauto.
Defined.

Lemma resolveSchema_unfold fuel spec schema :
  resolveSchema fuel spec schema =
  if negb (truthy schema) then Ret JUndefined
  else
    let r := get schema "$ref" in
    if truthy r then
      match r with
      | JStr ref =>
          let resolved := resolveRef spec ref in
          if truthy resolved then
            match fuel with
            | O => OutOfFuel
            | S fuel' => resolveSchema fuel' spec resolved
            end
          else Ret JUndefined
      | _ => Throw TypeError
      end
    else Ret schema.
Proof. destruct fuel; reflexivity. Qed.

(** A node with no truthy [$ref] is its own resolution. *)
Lemma resolveSchema_plain fuel spec node :
  truthy node = true -> truthy (get node "$ref") = false ->
  resolveSchema fuel spec node = Ret node.
Proof.
  intros Ht Hr. rewrite resolveSchema_unfold. simpl. now rewrite Ht, Hr.
Qed.

(** What a present resolution looks like. *)
Lemma resolveSchema_present :
  forall fuel spec node r,
    resolveSchema fuel spec node = Ret r -> r <> JUndefined ->
    truthy node = true /\ truthy r = true /\ truthy (get r "$ref") = false.
Proof.
  induction fuel as [|fuel IH]; intros spec node r H Hr;
    rewrite resolveSchema_unfold in H; simpl in H;
    destruct (truthy node) eqn:Hn; simpl in H;
    try (injection H as <-; congruence);
    destruct (truthy (get node "$ref")) eqn:Href;
    try (injection H as <-; auto).
  - destruct (get node "$ref"); try discriminate.
    destruct (truthy (resolveRef spec s)); try discriminate.
    injection H as <-; congruence.
  - destruct (get node "$ref"); try discriminate.
    destruct (truthy (resolveRef spec s)) eqn:Hres.
    + destruct (IH _ _ _ H Hr) as (_ & H2 & H3). auto.
    + injection H as <-; congruence.
Qed.

(** More fuel never changes a result. *)
Lemma resolveSchema_fuel_mono :
  forall fuel fuel' spec node r,
    resolveSchema fuel spec node = Ret r -> fuel <= fuel' ->
    resolveSchema fuel' spec node = Ret r.
Proof.
  induction fuel as [|fuel IH]; intros fuel' spec node r H Hle;
    rewrite resolveSchema_unfold in H; rewrite resolveSchema_unfold;
    simpl in *;
    destruct (truthy node); simpl in *; auto;
    destruct (truthy (get node "$ref")); auto;
    destruct (get node "$ref"); auto;
    destruct (truthy (resolveRef spec s)); auto.
  - discriminate.
  - destruct fuel' as [|fuel']; [lia|]. apply IH; [exact H|lia].
Qed.

(** C7: a node without a [$ref] field resolves to itself, whatever the
    fuel: a schema node is an object, hence truthy, and the absent node
    resolves to absent.  Resolution is idempotent: a present result
    resolves to itself again. *)
Theorem resolveSchema_identity_idempotent :
  forall (spec : JsValue),
    (forall fuel node,
        truthy node = true \/ node = JUndefined ->
        get node "$ref" = JUndefined ->
        resolveSchema fuel spec node = Ret node) /\
    (forall fuel node r,
        resolveSchema fuel spec node = Ret r -> r <> JUndefined ->
        forall fuel', resolveSchema fuel' spec r = Ret r).
Proof.
  intros spec. split.
  - intros fuel node [Ht| ->] Hr; [|now destruct fuel].
    apply resolveSchema_plain; [exact Ht|]. now rewrite Hr.
  - intros fuel node r H Hr fuel'.
    destruct (resolveSchema_present _ _ _ _ H Hr) as (_ & H2 & H3).
    now apply resolveSchema_plain.
Qed.

Lemma resolveSchema_identity_idempotent_witness :
  resolveSchema 0 petSpec (JObj [("type", JStr "string")])
    = Ret (JObj [("type", JStr "string")]) /\
  resolveSchema 9 petSpec
    (JObj [("type", JStr "object"); ("example", JObj [("id", JNum 7)])])
    = Ret (JObj [("type", JStr "object"); ("example", JObj [("id", JNum 7)])]).
Proof.
  split.
  - apply (proj1 (resolveSchema_identity_idempotent petSpec));
      [left|]; reflexivity.
  - apply (proj2 (resolveSchema_identity_idempotent petSpec) 2
             (JObj [("$ref", JStr "#/components/schemas/PetRef")])).
    + reflexivity.
    + discriminate.
Defined.

(** ** Example Synthesizer *)

(** C6: when the node resolves and the resolved node carries an [example],
    the synthesizer returns that value as written, whatever the [type];
    without an [example] but with a [default] it returns the default.  Any
    fuel above the one that resolves the node is enough. *)
Theorem synthesize_example_then_default :
  forall (fuel : nat) (spec node resolved : JsValue),
    resolveSchema fuel spec node = Ret resolved ->
    resolved <> JUndefined ->
    forall fuel', fuel < fuel' ->
      (get resolved "example" <> JUndefined ->
       generateExampleFromSchema fuel' spec node = Ret (get resolved "example")) /\
      (get resolved "example" = JUndefined ->
       get resolved "default" <> JUndefined ->
       generateExampleFromSchema fuel' spec node = Ret (get resolved "default")).
Proof.
  intros fuel spec node resolved Hres Hpresent fuel' Hlt.
  destruct fuel' as [|fuel']; [lia|].
  destruct (resolveSchema_present _ _ _ _ Hres Hpresent) as (Hn & Hr & _).
  assert (Hres' : resolveSchema fuel' spec node = Ret resolved)
    by (apply (resolveSchema_fuel_mono fuel); [exact Hres|lia]).
  split.
  - intros Hex. cbn [generateExampleFromSchema].
    rewrite Hn, Hres'. cbn [negb bind]. rewrite Hr. cbn [negb].
    destruct (get resolved "example"); try reflexivity. congruence.
  - intros Hex Hdef. cbn [generateExampleFromSchema].
    rewrite Hn, Hres'. cbn [negb bind]. rewrite Hr, Hex. cbn [negb is_undefined].
    destruct (get resolved "default"); try reflexivity. congruence.
Qed.

Lemma synthesize_example_then_default_witness :
  generateExampleFromSchema 3 petSpec
    (JObj [("$ref", JStr "#/components/schemas/PetRef")])
    = Ret (JObj [("id", JNum 7)]) /\
  generateExampleFromSchema 2 petSpec
    (JObj [("$ref", JStr "#/components/schemas/Count")])
    = Ret (JNum 3).
Proof.
  split.
  - apply (proj1 (synthesize_example_then_default 2 petSpec
                    (JObj [("$ref", JStr "#/components/schemas/PetRef")])
                    (JObj [("type", JStr "object"); ("example", JObj [("id", JNum 7)])])
                    eq_refl ltac:(discriminate) 3 ltac:(lia))).
    discriminate.
  - apply (proj2 (synthesize_example_then_default 1 petSpec
                    (JObj [("$ref", JStr "#/components/schemas/Count")])
                    (JObj [("type", JStr "integer"); ("default", JNum 3)])
                    eq_refl ltac:(discriminate) 2 ltac:(lia))).
    + reflexivity.
    + discriminate.
Defined.

(** The [array] case as the code has it: the item example is wrapped when
    it is truthy, and dropped when it is falsy. *)
Lemma synthesize_array :
  forall (fuel : nat) (spec node resolved itemExample : JsValue),
    truthy node = true ->
    resolveSchema fuel spec node = Ret resolved ->
    truthy resolved = true ->
    get resolved "example" = JUndefined ->
    get resolved "default" = JUndefined ->
    get resolved "type" = JStr "array" ->
    generateExampleFromSchema fuel spec (get resolved "items") = Ret itemExample ->
    generateExampleFromSchema (S fuel) spec node =
      Ret (if truthy itemExample then JArr [itemExample] else JArr []).
Proof.
  intros fuel spec node resolved item Hn Hres Hr Hex Hdef Hty Hitem.
  cbn [generateExampleFromSchema].
  rewrite Hn, Hres. cbn [negb bind]. rewrite Hr, Hex, Hdef, Hty, Hitem.
  reflexivity.
Qed.

(** C3 (the code departs from the claim): an array of integers synthesizes
    to the empty sequence, because the item example 0 is falsy; an array of
    strings synthesizes to the one-element sequence ["string"]. *)
Theorem synthesize_array_of_integer_is_empty :
  forall (spec : JsValue) (fuel : nat),
    generateExampleFromSchema (S fuel) spec (JObj [("type", JStr "integer")])
      = Ret (JNum 0) /\
    generateExampleFromSchema (S (S fuel)) spec (arrayOf "integer") = Ret (JArr []) /\
    generateExampleFromSchema (S (S fuel)) spec (arrayOf "string")
      = Ret (JArr [JStr "string"]).
Proof.
  intros spec fuel. repeat split; destruct fuel; reflexivity.
Qed.

(** ** Spec Loader *)

Section SpecLoaderProperties.
Variable JSON_parse : string -> option JsValue.
Variable yaml_load : string -> option JsValue.

(** Every outcome of the loader: a specification with both markers, one
    of the two loader errors, or a type error when the parsed value is
    null or undefined. *)
Lemma parseOpenAPISpec_outcomes (content : string) :
  (exists spec,
      parseOpenAPISpec JSON_parse yaml_load content = Ret spec /\
      parsedValue JSON_parse yaml_load content = Some spec /\
      truthy (get spec "openapi") = true /\ truthy (get spec "paths") = true) \/
  (parseOpenAPISpec JSON_parse yaml_load content = Throw (Error failedToParse) /\
   parsedValue JSON_parse yaml_load content = None) \/
  (exists v,
      parseOpenAPISpec JSON_parse yaml_load content = Throw (Error missingFields) /\
      parsedValue JSON_parse yaml_load content = Some v /\ is_nullish v = false /\
      (truthy (get v "openapi") = false \/ truthy (get v "paths") = false)) \/
  (exists v,
      parseOpenAPISpec JSON_parse yaml_load content = Throw TypeError /\
      parsedValue JSON_parse yaml_load content = Some v /\ is_nullish v = true).
Proof.
  unfold parseOpenAPISpec, parsedValue.
  assert (H : forall v,
    (exists spec,
      (openapi <- member v "openapi" ;;
       if negb (truthy openapi) then Throw (Error missingFields)
       else paths <- member v "paths" ;;
            if negb (truthy paths) then Throw (Error missingFields) else Ret v)
      = Ret spec /\ Some v = Some spec /\
      truthy (get spec "openapi") = true /\ truthy (get spec "paths") = true) \/
    (exists v',
      (openapi <- member v "openapi" ;;
       if negb (truthy openapi) then Throw (Error missingFields)
       else paths <- member v "paths" ;;
            if negb (truthy paths) then Throw (Error missingFields) else Ret v)
      = Throw (Error missingFields) /\ Some v = Some v' /\ is_nullish v' = false /\
      (truthy (get v' "openapi") = false \/ truthy (get v' "paths") = false)) \/
    (exists v',
      (openapi <- member v "openapi" ;;
       if negb (truthy openapi) then Throw (Error missingFields)
       else paths <- member v "paths" ;;
            if negb (truthy paths) then Throw (Error missingFields) else Ret v)
      = Throw TypeError /\ Some v = Some v' /\ is_nullish v' = true)).
  { intros v. unfold member. destruct (is_nullish v) eqn:Hn; cbn [bind].
    - right; right. exists v. auto.
    - destruct (truthy (get v "openapi")) eqn:Ho; cbn [negb].
      + destruct (truthy (get v "paths")) eqn:Hp; cbn [negb].
        * left. exists v. auto.
        * right; left. exists v. auto.
      + right; left. exists v. auto. }
  destruct (JSON_parse content) as [v|].
  - cbn [bind]. destruct (H v) as [H1|[H1|H1]]; auto.
  - destruct (yaml_load content) as [v|].
    + cbn [bind]. destruct (H v) as [H1|[H1|H1]]; auto.
    + right; left. split; reflexivity.
Qed.

(** C5 (the code departs from the claim): the text "null" parses to
    null, and the loader then fails on reading [spec.openapi] with a
    type error instead of the error for missing required fields. *)
Theorem parseOpenAPISpec_null_type_error :
  JSON_parse "null" = Some JNull ->
  parseOpenAPISpec JSON_parse yaml_load "null" = Throw TypeError.
Proof.
  intros H. unfold parseOpenAPISpec. rewrite H. reflexivity.
Qed.
End SpecLoaderProperties.

Lemma parseOpenAPISpec_null_type_error_witness :
  parseOpenAPISpec parseLiteral parseLiteral "null" = Throw TypeError.
Proof.
  apply (parseOpenAPISpec_null_type_error parseLiteral parseLiteral).
  reflexivity.
Defined.

(** ** Endpoint Extractor *)

Lemma forEach_ret {A S : Type} (f : S -> A -> Outcome S) (g : S -> A -> S) :
  forall (xs : list A) (s : S),
    (forall s' x, In x xs -> f s' x = Ret (g s' x)) ->
    forEach xs f s = Ret (fold_left g xs s).
Proof.
  induction xs as [|x xs IH]; intros s H; [reflexivity|].
  cbn [forEach fold_left]. rewrite (H s x (or_introl eq_refl)). cbn [bind].
  apply IH. intros s' y Hy. apply H. now right.
Qed.

Lemma fold_left_flat_map {A B : Type} (h : A -> list B) :
  forall (xs : list A) (acc : list B),
    fold_left (fun acc x => (acc ++ h x)%list) xs acc = (acc ++ flat_map h xs)%list.
Proof.
  induction xs as [|x xs IH]; intros acc; cbn [fold_left flat_map].
  - now rewrite app_nil_r.
  - now rewrite IH, app_assoc.
Qed.

Lemma replace_non_alnum_get (s : string) :
  forall i,
    String.get i (replace_non_alnum s) =
    option_map (fun c => if is_alnum c then c else "-"%char) (String.get i s).
Proof.
  induction s as [|c s IH]; intros i; [reflexivity|].
  destruct i as [|i]; [reflexivity|]. apply IH.
Qed.

Lemma extractEndpoints_in_order (spec : JsValue) :
  is_nullish spec = false ->
  is_nullish (get spec "paths") = false ->
  Forall (fun entry => is_nullish (snd entry) = false) (own_entries (get spec "paths")) ->
  extractEndpoints spec = Ret (endpointsInOrder (get spec "paths")).
Proof.
  intros Hs Hp Hitems. unfold extractEndpoints, member, Object_entries.
  rewrite Hs. cbn [bind]. rewrite Hp. cbn [bind].
  rewrite (forEach_ret _
             (fun acc entry => (acc ++ endpointsOfPathItem (fst entry) (snd entry))%list)).
  - now rewrite fold_left_flat_map.
  - intros acc entry Hin. rewrite Forall_forall in Hitems.
    specialize (Hitems entry Hin).
    rewrite (forEach_ret _
               (fun acc m =>
                  (acc ++ if truthy (get (snd entry) (method_name m)) then
                            [{| id := endpoint_id m (fst entry);
                                path := fst entry;
                                method := m;
                                operation := get (snd entry) (method_name m);
                                pathParameters := get (snd entry) "parameters" |}]
                          else [])%list)).
    + now rewrite fold_left_flat_map.
    + intros acc' m _. unfold member. rewrite Hitems. cbn [bind].
      destruct (truthy (get (snd entry) (method_name m))); [reflexivity|].
      now rewrite app_nil_r.
Qed.

(** The ids the claim expects are not the ids of the code: the slash of
    the path becomes a second hyphen. *)
Lemma extractEndpoints_ids_counterexample :
  exists eps,
    extractEndpoints abSpec = Ret eps /\
    map id eps = ["get--a"; "post--a"; "get--b"] /\
    map id eps <> ["get-a"; "post-a"; "get-b"].
Proof.
  eexists. split; [reflexivity|]. split; [reflexivity|]. discriminate.
Qed.

(** C2 (amended): endpoints come path by path in declaration order and,
    within a path, verb by verb in the order get, post, put, patch, delete,
    options, head; each id is the verb, a hyphen and the path with every
    character outside [A-Za-z0-9] turned into a hyphen.  For paths /a (get,
    post) and /b (get) this gives three entries with ids get--a, post--a,
    get--b. *)
Theorem extractEndpoints_order_and_ids :
  (forall spec,
      is_nullish spec = false ->
      is_nullish (get spec "paths") = false ->
      Forall (fun entry => is_nullish (snd entry) = false)
             (own_entries (get spec "paths")) ->
      extractEndpoints spec = Ret (endpointsInOrder (get spec "paths"))) /\
  (forall m p i,
      String.get i (endpoint_id m p) =
      option_map (fun c => if is_alnum c then c else "-"%char)
                 (String.get i (method_name m ++ "-" ++ p))) /\
  (forall spec opA opPost opB,
      is_nullish spec = false ->
      get spec "paths" = abPaths opA opPost opB ->
      truthy opA = true -> truthy opPost = true -> truthy opB = true ->
      extractEndpoints spec =
      Ret [{| id := "get--a"; path := "/a"; method := M_get;
              operation := opA; pathParameters := JUndefined |};
           {| id := "post--a"; path := "/a"; method := M_post;
              operation := opPost; pathParameters := JUndefined |};
           {| id := "get--b"; path := "/b"; method := M_get;
              operation := opB; pathParameters := JUndefined |}]).
Proof.
  split; [exact extractEndpoints_in_order|]. split.
  - intros m p i. apply replace_non_alnum_get.
  - intros spec opA opPost opB Hs Hp HA HP HB.
    rewrite extractEndpoints_in_order; [|exact Hs|now rewrite Hp|].
    + rewrite Hp. unfold endpointsInOrder, endpointsOfPathItem, abPaths.
      cbn. now rewrite HA, HP, HB.
    + rewrite Hp. repeat constructor.
Qed.

Lemma extractEndpoints_order_and_ids_witness :
  extractEndpoints abSpec = Ret (endpointsInOrder (get abSpec "paths")) /\
  extractEndpoints (JObj [("paths", abPaths (JObj []) (JObj []) (JObj []))]) =
  Ret [{| id := "get--a"; path := "/a"; method := M_get;
          operation := JObj []; pathParameters := JUndefined |};
       {| id := "post--a"; path := "/a"; method := M_post;
          operation := JObj []; pathParameters := JUndefined |};
       {| id := "get--b"; path := "/b"; method := M_get;
          operation := JObj []; pathParameters := JUndefined |}].
Proof.
  split.
  - apply (proj1 extractEndpoints_order_and_ids abSpec);
      [reflexivity|reflexivity|repeat constructor].
  - apply (proj2 (proj2 extractEndpoints_order_and_ids)); reflexivity.
Defined.

(** ** Code Generators: the query string *)

Lemma paramsIn_filter (loc : string) :
  forall params,
    Forall (fun p => is_nullish p = false) params ->
    paramsIn loc params =
    Ret (filter (fun p => strict_eq_str (get p "in") loc) params).
Proof.
  unfold paramsIn. induction 1 as [|p params Hp _ IH]; [reflexivity|].
  cbn [filterM filter]. unfold member at 1. rewrite Hp. cbn [bind].
  rewrite IH. reflexivity.
Qed.




(** ** Tag Grouper *)

Lemma sameValueZero_eq a b : sameValueZero a b = true -> a = b.
Proof.
  destruct a, b; cbn; try discriminate; try reflexivity; intros H.
  - now apply Bool.eqb_prop in H; subst.
  - now apply Z.eqb_eq in H; subst.
  - now apply String.eqb_eq in H; subst.
Qed.

Lemma sameValueZero_refl a : is_primitive a = true -> sameValueZero a a = true.
Proof.
  destruct a; cbn; try discriminate; try reflexivity; intros _.
  - now destruct b.
  - apply Z.eqb_refl.
  - apply String.eqb_refl.
Qed.

Lemma sameValueZero_sym a b : sameValueZero a b = sameValueZero b a.
Proof.
  destruct a, b; cbn; try reflexivity.
  - now destruct b, b0.
  - apply Z.eqb_sym.
  - apply String.eqb_sym.
Qed.

Lemma Map_get_app {V : Type} (k : JsValue) (m m' : JsMap V) :
  Map_get k (m ++ m')%list =
  match Map_get k m with Some v => Some v | None => Map_get k m' end.
Proof.
  induction m as [|[k' v] m IH]; [reflexivity|]. cbn.
  destruct (sameValueZero k' k); [reflexivity|exact IH].
Qed.

Lemma Map_has_get {V : Type} (k : JsValue) (m : JsMap V) :
  Map_has k m = match Map_get k m with Some _ => true | None => false end.
Proof.
  induction m as [|[k' v] m IH]; [reflexivity|]. cbn.
  destruct (sameValueZero k' k); [reflexivity|exact IH].
Qed.

Lemma Map_get_adjust {V : Type} (k k' : JsValue) (f : V -> V) (m : JsMap V) :
  Map_get k (Map_adjust k' f m) =
  match Map_get k m with
  | Some v => Some (if sameValueZero k' k then f v else v)
  | None => None
  end.
Proof.
  induction m as [|[a v] m IH]; [reflexivity|]. cbn.
  destruct (sameValueZero a k') eqn:Hak'; cbn.
  - apply sameValueZero_eq in Hak'. subst a.
    destruct (sameValueZero k' k); [reflexivity|].
    destruct (Map_get k m); reflexivity.
  - destruct (sameValueZero a k) eqn:Hak.
    + apply sameValueZero_eq in Hak. subst a.
      rewrite sameValueZero_sym, Hak'. reflexivity.
    + exact IH.
Qed.

Lemma Map_get_set {V : Type} (k k' : JsValue) (v : V) (m : JsMap V) :
  Map_get k (Map_set k' v m) =
  if sameValueZero k' k then Some v else Map_get k m.
Proof.
  unfold Map_set. rewrite Map_has_get.
  destruct (Map_get k' m) as [old|] eqn:Hk'.
  - rewrite Map_get_adjust.
    destruct (sameValueZero k' k) eqn:E.
    + apply sameValueZero_eq in E. subst k'. now rewrite Hk'.
    + destruct (Map_get k m); reflexivity.
  - rewrite Map_get_app. cbn.
    destruct (sameValueZero k' k) eqn:E.
    + apply sameValueZero_eq in E. subst k'. now rewrite Hk'.
    + destruct (Map_get k m); reflexivity.
Qed.

Lemma seenIn_app names names' t :
  seenIn (names ++ names')%list t = seenIn names t || seenIn names' t.
Proof. apply existsb_app. Qed.

Lemma seenIn_true names t : seenIn names t = true -> In t names.
Proof.
  unfold seenIn. rewrite existsb_exists. intros (s & Hin & Hs).
  apply sameValueZero_eq in Hs. now subst.
Qed.

Lemma seenIn_false names t n :
  seenIn names t = false -> In n names -> sameValueZero n t = false.
Proof.
  unfold seenIn. intros H Hin.
  destruct (sameValueZero n t) eqn:E; [|reflexivity].
  assert (existsb (fun s => sameValueZero s t) names = true)
    by (apply existsb_exists; eauto).
  congruence.
Qed.

Lemma firstSeen_snoc :
  forall ts seen t,
    firstSeen seen (ts ++ [t])%list =
    (firstSeen seen ts ++ if seenIn (seen ++ ts)%list t then [] else [t])%list.
Proof.
  induction ts as [|t0 ts IH]; intros seen t.
  - cbn [app firstSeen]. rewrite app_nil_r. fold (seenIn seen t).
    destruct (seenIn seen t); reflexivity.
  - cbn [app firstSeen]. fold (seenIn seen t0).
    destruct (seenIn seen t0) eqn:H0.
    + rewrite IH. f_equal. rewrite !seenIn_app. cbn [seenIn existsb].
      fold (seenIn ts t).
      destruct (sameValueZero t0 t) eqn:E; [|reflexivity].
      apply sameValueZero_eq in E. subst t0. rewrite H0. reflexivity.
    + rewrite IH. cbn [app]. do 2 f_equal. now rewrite <- app_assoc.
Qed.

Lemma firstSeen_covers :
  forall ts seen t,
    seenIn seen t || seenIn (firstSeen seen ts) t = seenIn seen t || seenIn ts t.
Proof.
  induction ts as [|t0 ts IH]; intros seen t; [reflexivity|].
  cbn [firstSeen]. fold (seenIn seen t0).
  destruct (seenIn seen t0) eqn:H0.
  - rewrite IH. cbn [seenIn existsb]. fold (seenIn ts t).
    destruct (sameValueZero t0 t) eqn:E; [|reflexivity].
    apply sameValueZero_eq in E. subst t0. rewrite H0. reflexivity.
  - cbn [seenIn existsb]. fold (seenIn (firstSeen (seen ++ [t0]) ts) t).
    fold (seenIn ts t).
    specialize (IH (seen ++ [t0])%list t). rewrite seenIn_app in IH.
    cbn [seenIn existsb] in IH. fold (seenIn ts t) in IH.
    fold (seenIn (firstSeen (seen ++ [t0]) ts) t) in IH. fold (seenIn seen t) in IH.
    rewrite orb_false_r in IH.
    rewrite !orb_assoc. exact IH.
Qed.

Lemma firstSeen_fresh :
  forall ts seen x, In x (firstSeen seen ts) -> seenIn seen x = false.
Proof.
  induction ts as [|t0 ts IH]; intros seen x Hin; [destruct Hin|].
  cbn [firstSeen] in Hin. fold (seenIn seen t0) in Hin.
  destruct (seenIn seen t0) eqn:H0; [now apply IH|].
  destruct Hin as [<-|Hin]; [exact H0|].
  apply IH in Hin. rewrite seenIn_app in Hin.
  now apply orb_false_iff in Hin.
Qed.

Lemma firstSeen_NoDup :
  forall ts seen,
    Forall (fun t => is_primitive t = true) ts -> NoDup (firstSeen seen ts).
Proof.
  induction ts as [|t0 ts IH]; intros seen Hp; [constructor|].
  inversion Hp as [|? ? Hp0 Hps]; subst.
  cbn [firstSeen]. fold (seenIn seen t0).
  destruct (seenIn seen t0); [now apply IH|].
  constructor; [|now apply IH].
  intros Hin. apply firstSeen_fresh in Hin. rewrite seenIn_app in Hin.
  apply orb_false_iff in Hin. destruct Hin as [_ Hin].
  cbn in Hin. rewrite (sameValueZero_refl _ Hp0) in Hin. discriminate.
Qed.

Lemma Map_has_names {V : Type} (g : JsValue -> V) (names : list JsValue) t :
  Map_has t (map (fun n => (n, g n)) names) = seenIn names t.
Proof.
  unfold Map_has, seenIn. induction names as [|n names IH]; [reflexivity|].
  cbn. now rewrite IH.
Qed.

Lemma Map_adjust_names {V : Type} (g : JsValue -> V) (f : V -> V) t :
  forall names,
    NoDup names ->
    Map_adjust t f (map (fun n => (n, g n)) names) =
    map (fun n => (n, if sameValueZero n t then f (g n) else g n)) names.
Proof.
  induction 1 as [|n names Hn Hnd IH]; [reflexivity|].
  cbn. destruct (sameValueZero n t) eqn:E.
  - f_equal. apply map_ext_in. intros n' Hin.
    destruct (sameValueZero n' t) eqn:E'; [|reflexivity].
    apply sameValueZero_eq in E, E'. subst. contradiction.
  - now rewrite IH.
Qed.

Lemma membersOf_snoc t' visits t ep :
  membersOf t' (visits ++ [(t, ep)])%list =
  (membersOf t' visits ++ if sameValueZero t t' then [ep] else [])%list.
Proof.
  unfold membersOf. rewrite filter_app, map_app. cbn.
  destruct (sameValueZero t t'); reflexivity.
Qed.

Lemma membersOf_unseen t visits :
  seenIn (map fst visits) t = false -> membersOf t visits = [].
Proof.
  unfold membersOf. induction visits as [|[t0 ep] visits IH]; [reflexivity|].
  cbn. intros H. apply orb_false_iff in H. destruct H as [H0 H].
  rewrite H0. now apply IH.
Qed.

Section Grouping.
Variable spec : JsValue.
Variable tagDescriptions : JsMap JsValue.
Hypothesis descriptions_ok :
  forall t,
    match Map_get t tagDescriptions with Some d => d | None => JUndefined end
    = tagDescription spec t.

(** The map after a scan, bucket by bucket. *)
Lemma addToTag_fold :
  forall visits,
    Forall (fun v => is_primitive (fst v) = true) visits ->
    fold_left (fun m v => addToTag tagDescriptions m (fst v) (snd v)) visits []
    = map (fun t => (t, tagBucket spec visits t))
          (firstSeen [] (map fst visits)).
Proof.
  induction visits as [|[t ep] visits IH] using rev_ind; intros Hp;
    [reflexivity|].
  apply Forall_app in Hp. destruct Hp as [Hp Ht].
  inversion Ht as [|? ? Htp _]; subst. cbn [fst] in Htp.
  rewrite fold_left_app. cbn [fold_left fst snd]. rewrite (IH Hp).
  rewrite map_app. cbn [map fst]. rewrite firstSeen_snoc. cbn [app].
  unfold addToTag. rewrite Map_has_names.
  pose proof (firstSeen_covers (map fst visits) [] t) as Hcov.
  cbn [seenIn existsb orb] in Hcov.
  fold (seenIn (firstSeen [] (map fst visits)) t) in Hcov.
  fold (seenIn (map fst visits) t) in Hcov.
  rewrite Hcov.
  destruct (seenIn (map fst visits) t) eqn:Hseen; cbn [negb].
  - rewrite app_nil_r.
    rewrite Map_adjust_names
      by (apply firstSeen_NoDup; rewrite Forall_map; exact Hp).
    apply map_ext. intros n. f_equal. unfold tagBucket.
    rewrite membersOf_snoc, (sameValueZero_sym t n).
    destruct (sameValueZero n t); [reflexivity|].
    now rewrite app_nil_r.
  - rewrite map_app. cbn [map]. f_equal.
    + apply map_ext_in. intros n Hin. f_equal. unfold tagBucket.
      rewrite membersOf_snoc, (sameValueZero_sym t n).
      rewrite (seenIn_false _ _ _ Hcov Hin). now rewrite app_nil_r.
    + unfold tagBucket. rewrite membersOf_snoc, descriptions_ok.
      rewrite (membersOf_unseen _ _ Hseen), (sameValueZero_refl _ Htp).
      reflexivity.
Qed.
End Grouping.

Lemma tagDescriptions_fold :
  forall tags m t,
    Map_get t
      (fold_left
         (fun m tag =>
            Map_set (get tag "name") (js_or (get tag "description") (JStr "")) m)
         tags m)
    = match lastNamed t tags with
      | Some tag => Some (js_or (get tag "description") (JStr ""))
      | None => Map_get t m
      end.
Proof.
  induction tags as [|tag tags IH]; intros m t; [reflexivity|].
  cbn [fold_left lastNamed]. rewrite IH.
  destruct (lastNamed t tags); [reflexivity|].
  rewrite Map_get_set. destruct (sameValueZero (get tag "name") t); reflexivity.
Qed.

Lemma tagDescriptionsOf_ok (spec : JsValue) :
  tagListOk spec = true ->
  exists tagDescriptions,
    tagDescriptionsOf spec = Ret tagDescriptions /\
    forall t,
      match Map_get t tagDescriptions with Some d => d | None => JUndefined end
      = tagDescription spec t.
Proof.
  unfold tagListOk, tagDescriptionsOf, tagDescription, member.
  intros H. apply andb_prop in H. destruct H as [Hs Ht].
  apply negb_true_iff in Hs. rewrite Hs. cbn [bind].
  destruct (get spec "tags") as [| | | | | |tags|]; try discriminate;
    cbn [is_nullish]; try (exists []; split; reflexivity).
  rewrite forallb_forall in Ht.
  rewrite (forEach_ret _
             (fun m tag =>
                Map_set (get tag "name") (js_or (get tag "description") (JStr "")) m)).
  - eexists. split; [reflexivity|]. intros t. rewrite tagDescriptions_fold.
    destruct (lastNamed t tags); reflexivity.
  - intros m tag Hin. specialize (Ht tag Hin). apply negb_true_iff in Ht.
    rewrite Ht. reflexivity.
Qed.

Lemma tagsOfEndpoint_ok (ep : ParsedEndpoint) :
  tagsOk ep = true ->
  tagsOfEndpoint ep = Ret (declaredTags ep) /\
  Forall (fun t => is_primitive t = true) (declaredTags ep).
Proof.
  unfold tagsOk, tagsOfEndpoint, declaredTags, member. intros H.
  apply andb_prop in H. destruct H as [Hop Hts].
  apply negb_true_iff in Hop. rewrite Hop. cbn [bind].
  destruct (js_or (get (operation ep) "tags") (JArr [JStr "Untagged"]));
    try discriminate.
  split; [reflexivity|]. apply Forall_forall. now apply forallb_forall.
Qed.

Lemma fold_left_taggings {M : Type} (step : M -> JsValue -> ParsedEndpoint -> M) :
  forall eps m,
    fold_left (fun m ep => fold_left (fun m t => step m t ep) (declaredTags ep) m) eps m
    = fold_left (fun m v => step m (fst v) (snd v)) (taggings eps) m.
Proof.
  induction eps as [|ep eps IH]; intros m; [reflexivity|].
  cbn [fold_left taggings flat_map]. rewrite fold_left_app, IH. f_equal.
  generalize m. induction (declaredTags ep) as [|t ts IHt]; intros m0;
    [reflexivity|apply IHt].
Qed.

Lemma taggings_primitive :
  forall eps,
    forallb tagsOk eps = true ->
    Forall (fun v => is_primitive (fst v) = true) (taggings eps).
Proof.
  induction eps as [|ep eps IH]; intros H; [constructor|].
  cbn [forallb] in H. apply andb_prop in H. destruct H as [Hep H].
  cbn [taggings flat_map]. apply Forall_app. split; [|now apply IH].
  destruct (tagsOfEndpoint_ok ep Hep) as [_ Hp].
  rewrite Forall_map. exact Hp.
Qed.

(** The whole result of the grouper on a well-formed input. *)
Lemma groupEndpointsByTag_buckets (spec : JsValue) (eps : list ParsedEndpoint) :
  tagListOk spec = true ->
  forallb tagsOk eps = true ->
  groupEndpointsByTag spec eps =
  Ret (map (tagBucket spec (taggings eps))
           (firstSeen [] (map fst (taggings eps)))).
Proof.
  intros Hspec Heps. unfold groupEndpointsByTag.
  destruct (tagDescriptionsOf_ok spec Hspec) as (descs & -> & Hdescs).
  cbn [bind].
  rewrite (forEach_ret _
             (fun m ep =>
                fold_left (fun m t => addToTag descs m t ep) (declaredTags ep) m)).
  - cbn [bind]. rewrite (fold_left_taggings (addToTag descs)).
    rewrite (addToTag_fold spec descs Hdescs _ (taggings_primitive eps Heps)).
    unfold Map_values. rewrite map_map. reflexivity.
  - intros m ep Hin. rewrite forallb_forall in Heps.
    destruct (tagsOfEndpoint_ok ep (Heps ep Hin)) as [-> _]. cbn [bind].
    apply forEach_ret. reflexivity.
Qed.

Lemma firstSeen_complete ts t :
  In t ts -> is_primitive t = true -> In t (firstSeen [] ts).
Proof.
  intros Hin Hp. apply seenIn_true.
  pose proof (firstSeen_covers ts [] t) as H. cbn [seenIn existsb orb] in H.
  fold (seenIn (firstSeen [] ts) t) in H. fold (seenIn ts t) in H. rewrite H.
  unfold seenIn. apply existsb_exists. exists t. split; [exact Hin|].
  now apply sameValueZero_refl.
Qed.

Lemma membersOf_In t ep visits :
  In (t, ep) visits -> is_primitive t = true -> In ep (membersOf t visits).
Proof.
  intros Hin Hp. unfold membersOf.
  apply (in_map snd _ (t, ep)). apply filter_In. split; [exact Hin|].
  now apply sameValueZero_refl.
Qed.

Lemma taggings_In ep eps t :
  In ep eps -> In t (declaredTags ep) -> In (t, ep) (taggings eps).
Proof.
  intros Hep Ht. unfold taggings. apply in_flat_map. exists ep.
  split; [exact Hep|]. now apply (in_map (fun t => (t, ep))).
Qed.

(** An endpoint sits in the bucket of each of its tags. *)
Lemma grouped_under_each_tag (spec : JsValue) (eps : list ParsedEndpoint) ep t :
  In ep eps -> In t (declaredTags ep) -> is_primitive t = true ->
  In (tagBucket spec (taggings eps) t)
     (map (tagBucket spec (taggings eps)) (firstSeen [] (map fst (taggings eps)))) /\
  In ep (endpoints (tagBucket spec (taggings eps) t)).
Proof.
  intros Hep Ht Hp. pose proof (taggings_In _ _ _ Hep Ht) as Hv. split.
  - apply in_map. apply firstSeen_complete; [|exact Hp].
    now apply (in_map fst _ (t, ep)).
  - now apply membersOf_In.
Qed.

Lemma lastNamed_none t tags :
  (forall tag, In tag tags -> sameValueZero (get tag "name") t = false) ->
  lastNamed t tags = None.
Proof.
  induction tags as [|tag tags IH]; intros H; [reflexivity|].
  cbn [lastNamed]. rewrite IH by (intros; apply H; now right).
  now rewrite (H tag (or_introl eq_refl)).
Qed.

(** With no entry for the tag name in the top-level tag list (here there is
    no list at all, or a list naming another tag) the description of the
    bucket is absent, not the empty string. *)
Lemma groupEndpointsByTag_description_counterexample :
  groupEndpointsByTag (JObj [("openapi", JStr "3.0.0"); ("paths", JObj [])])
    [endpointOf (JObj [])]
  = Ret [{| name := JStr "Untagged"; description := JUndefined;
            endpoints := [endpointOf (JObj [])] |}] /\
  groupEndpointsByTag
    (JObj [("tags", JArr [JObj [("name", JStr "Pets"); ("description", JStr "pets")]])])
    [endpointOf (JObj [("tags", JArr [JStr "Orders"])])]
  = Ret [{| name := JStr "Orders"; description := JUndefined;
            endpoints := [endpointOf (JObj [("tags", JArr [JStr "Orders"])])] |}] /\
  JUndefined <> JStr "".
Proof.
  repeat split; try reflexivity. discriminate.
Qed.

(** C4 (amended): on a well-formed input the grouper returns one bucket per
    tag name, in the order the names are first met while scanning the
    endpoints in order; a bucket holds the endpoints visited under its name;
    an endpoint without tags is under "Untagged"; an endpoint tagged
    ["X","Y"] is in the bucket of X and in the bucket of Y, once in each; a
    description comes from the last entry of the top-level tag list with
    that name, is the empty string when that entry has no description, and
    is absent when the list has no entry for the name. *)
Theorem groupEndpointsByTag_first_sight_order :
  forall (spec : JsValue) (eps : list ParsedEndpoint),
    tagListOk spec = true ->
    forallb tagsOk eps = true ->
    exists buckets,
      groupEndpointsByTag spec eps = Ret buckets /\
      map name buckets = firstSeen [] (map fst (taggings eps)) /\
      (forall b, In b buckets ->
         endpoints b = membersOf (name b) (taggings eps) /\
         description b = tagDescription spec (name b)) /\
      (forall ep, In ep eps ->
         truthy (get (operation ep) "tags") = false ->
         exists b, In b buckets /\ name b = JStr "Untagged" /\ In ep (endpoints b)) /\
      (forall ep X Y, In ep eps ->
         get (operation ep) "tags" = JArr [JStr X; JStr Y] ->
         exists bx bY,
           In bx buckets /\ name bx = JStr X /\ In ep (endpoints bx) /\
           In bY buckets /\ name bY = JStr Y /\ In ep (endpoints bY)) /\
      (forall ep X Y, eps = [ep] -> X <> Y ->
         get (operation ep) "tags" = JArr [JStr X; JStr Y] ->
         buckets =
         [{| name := JStr X; description := tagDescription spec (JStr X);
             endpoints := [ep] |};
          {| name := JStr Y; description := tagDescription spec (JStr Y);
             endpoints := [ep] |}]) /\
      (forall t tags,
         get spec "tags" = JArr tags ->
         (forall tag, In tag tags -> sameValueZero (get tag "name") t = false) ->
         tagDescription spec t = JUndefined) /\
      (forall t, is_nullish (get spec "tags") = true ->
         tagDescription spec t = JUndefined) /\
      (forall t tags tag,
         get spec "tags" = JArr tags -> lastNamed t tags = Some tag ->
         tagDescription spec t = js_or (get tag "description") (JStr "")).
Proof.
  intros spec eps Hspec Heps. eexists.
  split; [apply (groupEndpointsByTag_buckets spec eps Hspec Heps)|].
  split; [now rewrite map_map, map_id|].
  split.
  { intros b Hb. apply in_map_iff in Hb. destruct Hb as (t & <- & _).
    split; reflexivity. }
  split.
  { intros ep Hep Hfalsy. exists (tagBucket spec (taggings eps) (JStr "Untagged")).
    assert (Ht : In (JStr "Untagged") (declaredTags ep)).
    { unfold declaredTags, js_or. rewrite Hfalsy. now left. }
    destruct (grouped_under_each_tag spec eps ep _ Hep Ht eq_refl) as [H1 H2].
    auto. }
  split.
  { intros ep X Y Hep Htags.
    assert (HX : In (JStr X) (declaredTags ep)).
    { unfold declaredTags, js_or. rewrite Htags. cbn. auto. }
    assert (HY : In (JStr Y) (declaredTags ep)).
    { unfold declaredTags, js_or. rewrite Htags. cbn. auto. }
    destruct (grouped_under_each_tag spec eps ep _ Hep HX eq_refl) as [H1 H2].
    destruct (grouped_under_each_tag spec eps ep _ Hep HY eq_refl) as [H3 H4].
    exists (tagBucket spec (taggings eps) (JStr X)),
           (tagBucket spec (taggings eps) (JStr Y)).
    repeat split; assumption. }
  split.
  { intros ep X Y -> Hne Htags.
    assert (Hd : declaredTags ep = [JStr X; JStr Y]).
    { unfold declaredTags, js_or. now rewrite Htags. }
    assert (Hxy : String.eqb X Y = false) by now apply String.eqb_neq.
    assert (Hyx : String.eqb Y X = false)
      by (apply String.eqb_neq; congruence).
    unfold taggings, tagBucket, membersOf. cbn [flat_map]. rewrite Hd.
    cbn. rewrite Hxy, Hyx, !String.eqb_refl. cbn.
    rewrite ?Hxy, ?Hyx, ?String.eqb_refl. reflexivity. }
  split.
  { intros t tags Htags Hnone. unfold tagDescription.
    now rewrite Htags, (lastNamed_none _ _ Hnone). }
  split.
  { intros t Hn. unfold tagDescription.
    destruct (get spec "tags"); try reflexivity; discriminate. }
  intros t tags tag Htags Hlast. unfold tagDescription.
  now rewrite Htags, Hlast.
Qed.

Lemma groupEndpointsByTag_first_sight_order_witness :
  exists buckets,
    groupEndpointsByTag abSpec abEndpoints = Ret buckets /\
    map name buckets = [JStr "X"; JStr "Y"; JStr "Untagged"] /\
    map description buckets = [JStr "the X"; JStr ""; JUndefined].
Proof.
  destruct (groupEndpointsByTag_first_sight_order abSpec abEndpoints
              eq_refl eq_refl) as (buckets & Hrun & Hnames & _).
  exists buckets. split; [exact Hrun|]. split; [exact Hnames|].
  vm_compute in Hrun. injection Hrun as <-. reflexivity.
Defined.

(** ** Code Generators: the request body *)

Lemma lookup_remove_other {V : Type} (k k' : string) (ps : list (string * V)) :
  String.eqb k k' = false -> lookup k' (remove_key k ps) = lookup k' ps.
Proof.
  intros Hne. unfold remove_key.
  induction ps as [|[a v] ps IH]; [reflexivity|].
  cbn [filter fst lookup]. destruct (String.eqb a k) eqn:Ea; cbn [negb lookup].
  - apply String.eqb_eq in Ea. subst a. now rewrite Hne.
  - now rewrite IH.
Qed.

Lemma lookup_remove_same {V : Type} (k : string) (ps : list (string * V)) :
  lookup k (remove_key k ps) = None.
Proof.
  unfold remove_key. induction ps as [|[a v] ps IH]; [reflexivity|].
  cbn [filter fst]. destruct (String.eqb a k) eqn:Ea; cbn [negb lookup];
    [exact IH|]. now rewrite Ea.
Qed.

Lemma withoutRequestBody_nullish ep :
  is_nullish (operation (withoutRequestBody ep)) = is_nullish (operation ep).
Proof. cbn. now destruct (operation ep). Qed.

Lemma withoutRequestBody_parameters ep :
  get (operation (withoutRequestBody ep)) "parameters"
  = get (operation ep) "parameters".
Proof.
  cbn. destruct (operation ep); try reflexivity.
  cbn. now rewrite lookup_remove_other.
Qed.

Lemma withoutRequestBody_requestBody ep :
  get (operation (withoutRequestBody ep)) "requestBody" = JUndefined.
Proof.
  cbn. destruct (operation ep); try reflexivity.
  cbn. now rewrite lookup_remove_same.
Qed.

Lemma withoutRequestBody_allParams ep :
  allParamsOf (withoutRequestBody ep) = allParamsOf ep.
Proof.
  unfold allParamsOf, member.
  rewrite withoutRequestBody_nullish, withoutRequestBody_parameters.
  reflexivity.
Qed.

Lemma withoutRequestBody_body fuel spec ep :
  is_nullish (operation ep) = false ->
  getRequestBody fuel spec (withoutRequestBody ep) = Ret JNull.
Proof.
  intros H. unfold getRequestBody, member.
  rewrite withoutRequestBody_nullish, H, withoutRequestBody_requestBody.
  reflexivity.
Qed.

Lemma getRequestBody_operation fuel spec ep body :
  getRequestBody fuel spec ep = Ret body -> is_nullish (operation ep) = false.
Proof.
  unfold getRequestBody, member. now destruct (is_nullish (operation ep)).
Qed.

Lemma includesBody_upper body m :
  isBodyVerb m = false \/ truthy body = false ->
  includesBody body ["POST"; "PUT"; "PATCH"] (toUpperCase (method_name m)) = false.
Proof.
  unfold includesBody. intros [H|H].
  - destruct m; try discriminate; apply andb_false_r.
  - now rewrite H.
Qed.

Lemma includesBody_lower body m :
  isBodyVerb m = false \/ truthy body = false ->
  includesBody body ["post"; "put"; "patch"] (toLowerCase (method_name m)) = false.
Proof.
  unfold includesBody. intros [H|H].
  - destruct m; try discriminate; apply andb_false_r.
  - now rewrite H.
Qed.

(** C9: a snippet includes a request body only when the verb is post, put
    or patch and a body value was computed.  When the verb is another one,
    or the body value computed is falsy (null when none is declared), the
    snippet of every generator is the text made of the URL, the verb and
    the headers alone ([requestOnly]), in which no body occurs; it is also
    the snippet of the same endpoint with no request body declared, for
    which no body is ever computed. *)
Theorem snippet_body_only_for_body_verbs :
  forall (JSON_stringify : JsValue -> nat -> string)
         (String_replace : string -> string -> string -> string)
         (fuel : nat) (language : CodeLanguage) (spec : JsValue)
         (endpoint : ParsedEndpoint) (options : GeneratorOptions) (body : JsValue),
    getRequestBody fuel spec endpoint = Ret body ->
    isBodyVerb (method endpoint) = false \/ truthy body = false ->
    generateCode JSON_stringify String_replace fuel language spec endpoint options
    = (allParams <- allParamsOf endpoint ;;
       url <- requestUrl String_replace endpoint options allParams ;;
       Ret (requestOnly JSON_stringify language url (method endpoint)
              (requestHeaders options))) /\
    generateCode JSON_stringify String_replace fuel language spec endpoint options
    = generateCode JSON_stringify String_replace fuel language spec
        (withoutRequestBody endpoint) options /\
    forall fuel', getRequestBody fuel' spec (withoutRequestBody endpoint) = Ret JNull.
Proof.
  intros JSON_stringify String_replace fuel language spec endpoint options body
         Hbody Hno.
  pose proof (getRequestBody_operation _ _ _ _ Hbody) as Hop.
  pose proof (includesBody_upper body _ Hno) as Hup.
  pose proof (includesBody_lower body _ Hno) as Hlow.
  split; [|split; [|intros fuel'; now apply withoutRequestBody_body]].
  - destruct language; cbn [generateCode requestOnly];
      unfold generateCurl, generateJavaScript, generatePython, generateGo,
        curlRequest, javaScriptRequest, pythonRequest, goRequest;
      destruct (allParamsOf endpoint) as [allParams| |]; cbn [bind]; try reflexivity;
      destruct (requestUrl String_replace endpoint options allParams);
      cbn [bind]; try reflexivity;
      rewrite Hbody; cbn [bind]; rewrite ?Hup, ?Hlow; reflexivity.
  - destruct language; cbn [generateCode];
      unfold generateCurl, generateJavaScript, generatePython, generateGo, requestUrl;
      rewrite withoutRequestBody_allParams, (withoutRequestBody_body fuel spec _ Hop),
        Hbody;
      change (method (withoutRequestBody endpoint)) with (method endpoint);
      change (path (withoutRequestBody endpoint)) with (path endpoint);
      destruct (allParamsOf endpoint) as [allParams| |]; cbn [bind]; try reflexivity;
      destruct (buildUrl String_replace (baseUrl options) (path endpoint) allParams);
      cbn [bind]; try reflexivity;
      destruct (buildQueryString allParams); cbn [bind]; try reflexivity;
      rewrite ?Hup, ?Hlow; reflexivity.
Qed.

Lemma snippet_body_only_for_body_verbs_witness :
  generateCode (fun v _ => toStringJs v) jsReplace 3 javascript petSpec getWithBody
    sampleOptions
  = Ret (requestOnly (fun v _ => toStringJs v) javascript
           "https://api.example.com/pets" M_get
           [("Content-Type", "application/json"); ("Authorization", "Bearer t0k")]) /\
  generateCode (fun v _ => toStringJs v) jsReplace 3 curl petSpec createCounter
    sampleOptions
  = Ret ("curl -X POST " ++ dq ++ "https://api.example.com/counters" ++ dq ++
         " \" ++ nl ++ "  -H " ++ dq ++ "Content-Type: application/json" ++ dq ++
         " \" ++ nl ++ "  -H " ++ dq ++ "Authorization: Bearer t0k" ++ dq).
Proof.
  split.
  - apply (proj1 (snippet_body_only_for_body_verbs
                    (fun v _ => toStringJs v) jsReplace
                    3 javascript petSpec getWithBody sampleOptions (JStr "string")
                    eq_refl (or_introl eq_refl))).
  - apply (proj1 (snippet_body_only_for_body_verbs
                    (fun v _ => toStringJs v) jsReplace
                    3 curl petSpec createCounter sampleOptions (JNum 0)
                    eq_refl (or_intror eq_refl))).
Defined.

(** ** Reference Resolver: more properties *)

Lemma resolveRef_loop_walk :
  forall parts current,
    (forall n, 1 <= n <= List.length parts ->
               truthy (walk current (firstn n parts)) = true) ->
    resolveRef_loop parts current = walk current parts.
Proof.
  induction parts as [|part rest IH]; intros current H; [reflexivity|].
  cbn [resolveRef_loop]. cbv zeta.
  assert (H1 : truthy (get current part) = true).
  { apply (H 1). cbn [List.length]. lia. }
  rewrite H1. cbn [negb].
  change (walk current (part :: rest)) with (walk (get current part) rest).
  apply IH. intros n Hn. apply (H (S n)). cbn [List.length]. lia.
Qed.

(** X1: a reference all of whose segments lead to truthy values resolves to
    the value found by reading the segments, one property after the other,
    from the specification root. *)
Theorem resolveRef_reads_the_path :
  forall (spec : JsValue) (ref : string),
    startsWith "#/" ref = true ->
    (forall n, 1 <= n <= List.length (split "/" (slice 2 ref)) ->
               truthy (walk spec (firstn n (split "/" (slice 2 ref)))) = true) ->
    resolveRef spec ref = walk spec (split "/" (slice 2 ref)).
Proof.
  intros spec ref Hp H. unfold resolveRef. rewrite Hp. cbn [negb].
  now apply resolveRef_loop_walk.
Qed.

Lemma resolveRef_reads_the_path_witness :
  resolveRef petSpec "#/components/schemas/Count/type" = JStr "integer".
Proof.
  apply (resolveRef_reads_the_path petSpec "#/components/schemas/Count/type" eq_refl).
  intros n Hn. cbn in Hn.
  destruct n as [|[|[|[|[|n]]]]]; try reflexivity; lia.
Defined.


Lemma split_not_nil sep s : split sep s <> [].
Proof.
  destruct s as [|c r]; cbn; [discriminate|].
  destruct (Ascii.eqb c sep); [discriminate|].
  destruct (split sep r); discriminate.
Qed.


Lemma split_no_separator sep s : occurs sep s = false -> split sep s = [s].
Proof.
  induction s as [|c r IH]; intros H; [reflexivity|].
  cbn in H. apply orb_false_iff in H. destruct H as [Hc Hr].
  cbn [split]. rewrite Hc, (IH Hr). reflexivity.
Qed.

(** X3: a reference "#/components/schemas/N", for a name N without a slash,
    resolves to the schema registered under N, provided the registry and
    the schema are there (truthy); no other part of the document is read. *)
Theorem resolveRef_component_schema :
  forall (spec : JsValue) (name : string),
    occurs "/" name = false ->
    truthy (get spec "components") = true ->
    truthy (get (get spec "components") "schemas") = true ->
    truthy (get (get (get spec "components") "schemas") name) = true ->
    resolveRef spec ("#/components/schemas/" ++ name)
    = get (get (get spec "components") "schemas") name.
Proof.
  intros spec name Hname Hc Hs Hn. unfold resolveRef.
  cbn [startsWith String.prefix append negb slice].
  change (if Ascii.ascii_dec "#" "#" then
            if Ascii.ascii_dec "/" "/" then true else false else false)
    with true.
  cbn [negb]. cbn [split Ascii.eqb Bool.eqb]. rewrite (split_no_separator _ _ Hname).
  cbn [resolveRef_loop]. cbv zeta. now rewrite Hc, Hs, Hn.
Qed.

Lemma resolveRef_component_schema_witness :
  resolveRef petSpec "#/components/schemas/Count"
  = JObj [("type", JStr "integer"); ("default", JNum 3)].
Proof.
  apply (resolveRef_component_schema petSpec "Count"); reflexivity.
Defined.

(** X4: whatever [resolveSchema] returns is absent or a concrete node: a
    truthy value without a (truthy) [$ref]; a reference node is never
    handed back. *)
Theorem resolveSchema_never_returns_reference :
  forall (fuel : nat) (spec node r : JsValue),
    resolveSchema fuel spec node = Ret r ->
    r = JUndefined \/ (truthy r = true /\ truthy (get r "$ref") = false).
Proof.
  induction fuel as [|fuel IH]; intros spec node r H;
    rewrite resolveSchema_unfold in H; cbv zeta in H;
    destruct (truthy node) eqn:Hn; cbn [negb] in H;
    try (injection H as <-; now left);
    destruct (truthy (get node "$ref")) eqn:Href;
    try (injection H as <-; now right);
    destruct (get node "$ref"); try discriminate;
    destruct (truthy (resolveRef spec s)); try discriminate;
    try (injection H as <-; now left).
  now apply (IH spec (resolveRef spec s)).
Qed.

Lemma resolveSchema_never_returns_reference_witness :
  truthy (get (JObj [("type", JStr "integer"); ("default", JNum 3)]) "$ref") = false.
Proof.
  destruct (resolveSchema_never_returns_reference 1 petSpec
              (JObj [("$ref", JStr "#/components/schemas/Count")])
              (JObj [("type", JStr "integer"); ("default", JNum 3)]) eq_refl)
    as [H|[_ H]]; [discriminate H|exact H].
Defined.

Lemma resolveSchema_step fuel spec node target :
  RefersTo spec node target ->
  resolveSchema (S fuel) spec node = resolveSchema fuel spec target.
Proof.
  intros (Hn & ref & Href & Hne & Ht & Htt).
  rewrite resolveSchema_unfold. cbv zeta. rewrite Hn, Href. cbn [negb truthy].
  apply String.eqb_neq in Hne. rewrite Hne. cbn [negb]. now rewrite Ht, Htt.
Qed.

(** X5: resolving the head of a chain of [k] references is resolving its
    last link directly, at the cost of [k] units of fuel. *)
Theorem resolveSchema_chain :
  forall (spec : JsValue) (k : nat) (node final : JsValue),
    RefChain spec k node final ->
    forall fuel, resolveSchema (k + fuel) spec node = resolveSchema fuel spec final.
Proof.
  intros spec k. induction k as [|k IH]; intros node final H fuel.
  - cbn in H. now subst.
  - destruct H as (target & Hstep & Hchain). cbn [Nat.add].
    rewrite (resolveSchema_step _ _ _ _ Hstep). now apply IH.
Qed.

Ltac refers_by_computation :=
  split; [reflexivity|split; [discriminate|split; reflexivity]].

Lemma resolveSchema_chain_witness :
  resolveSchema 2 petSpec
    (JObj [("$ref", JStr "#/components/schemas/PetRef")])
  = resolveSchema 0 petSpec
      (JObj [("type", JStr "object"); ("example", JObj [("id", JNum 7)])]).
Proof.
  apply (resolveSchema_chain petSpec 2
           (JObj [("$ref", JStr "#/components/schemas/PetRef")])
           (JObj [("type", JStr "object"); ("example", JObj [("id", JNum 7)])])).
  exists (JObj [("$ref", JStr "#/components/schemas/Pet")]). split.
  - split; [reflexivity|]. exists "#/components/schemas/PetRef".
    refers_by_computation.
  - exists (JObj [("type", JStr "object"); ("example", JObj [("id", JNum 7)])]).
    split; [|reflexivity].
    split; [reflexivity|]. exists "#/components/schemas/Pet".
    refers_by_computation.
Defined.

(** X6: there is no cycle guard: on a set of nodes each of which refers to
    another node of the set, resolution exhausts every budget. *)
Theorem resolveSchema_cycle_diverges :
  forall (spec : JsValue) (P : JsValue -> Prop),
    (forall node, P node -> exists target, RefersTo spec node target /\ P target) ->
    forall node, P node ->
    forall fuel, resolveSchema fuel spec node = OutOfFuel.
Proof.
  intros spec P Hclosed node HP fuel. revert node HP.
  induction fuel as [|fuel IH]; intros node HP;
    destruct (Hclosed node HP) as (target & Hstep & HPt).
  - destruct Hstep as (Hn & ref & Href & Hne & Ht & Htt).
    rewrite resolveSchema_unfold. cbv zeta. rewrite Hn, Href. cbn [negb truthy].
    apply String.eqb_neq in Hne. rewrite Hne. cbn [negb]. now rewrite Ht, Htt.
  - rewrite (resolveSchema_step _ _ _ _ Hstep). now apply IH.
Qed.

Lemma resolveSchema_cycle_diverges_witness :
  resolveSchema 50 pingPongSpec
    (JObj [("$ref", JStr "#/components/schemas/Pong")]) = OutOfFuel.
Proof.
  refine (resolveSchema_cycle_diverges pingPongSpec
            (fun node =>
               node = JObj [("$ref", JStr "#/components/schemas/Pong")] \/
               node = JObj [("$ref", JStr "#/components/schemas/Ping")])
            _ _ _ 50).
  - intros node [-> | ->].
    + exists (JObj [("$ref", JStr "#/components/schemas/Ping")]). split; [|now right].
      split; [reflexivity|]. exists "#/components/schemas/Pong".
      refers_by_computation.
    + exists (JObj [("$ref", JStr "#/components/schemas/Pong")]). split; [|now left].
      split; [reflexivity|]. exists "#/components/schemas/Ping".
      refers_by_computation.
  - now left.
Defined.

(** ** Example Synthesizer: more properties *)

(** X7: a node whose resolution is absent (a broken reference) synthesizes
    to null; nothing is thrown. *)
Theorem synthesize_unresolved_is_null :
  forall (fuel : nat) (spec node : JsValue),
    resolveSchema fuel spec node = Ret JUndefined ->
    forall fuel', fuel < fuel' ->
      generateExampleFromSchema fuel' spec node = Ret JNull.
Proof.
  intros fuel spec node H fuel' Hlt. destruct fuel' as [|fuel']; [lia|].
  cbn [generateExampleFromSchema].
  destruct (truthy node); cbn [negb]; [|reflexivity].
  rewrite (resolveSchema_fuel_mono fuel fuel' spec node _ H) by lia.
  reflexivity.
Qed.

Lemma synthesize_unresolved_is_null_witness :
  generateExampleFromSchema 1 petSpec
    (JObj [("$ref", JStr "#/components/schemas/Missing")]) = Ret JNull.
Proof.
  apply (synthesize_unresolved_is_null 0 petSpec
           (JObj [("$ref", JStr "#/components/schemas/Missing")]) eq_refl 1).
  lia.
Defined.

Lemma has_key_false {V : Type} (k : string) (ps : list (string * V)) :
  has_key k ps = false <-> ~ In k (map fst ps).
Proof.
  induction ps as [|[k' v] ps IH]; cbn; [tauto|].
  rewrite orb_false_iff, IH, String.eqb_neq. tauto.
Qed.

Lemma insert_key_plain {V : Type} (k : string) (v : V) (ps : list (string * V)) :
  array_index k = None -> insert_key k v ps = (ps ++ [(k, v)])%list.
Proof.
  intros Hk. induction ps as [|[k' v'] ps IH]; [reflexivity|].
  cbn [insert_key app]. rewrite Hk. now rewrite IH.
Qed.

Lemma lookup_replace_key {V : Type} (k k' : string) (v : V) (ps : list (string * V)) :
  lookup k' (replace_key k v ps) =
  if String.eqb k k' then (if has_key k ps then Some v else None) else lookup k' ps.
Proof.
  induction ps as [|[a x] ps IH]; cbn [replace_key lookup has_key].
  - now destruct (String.eqb k k').
  - destruct (String.eqb a k) eqn:Ea; cbn [lookup orb].
    + apply String.eqb_eq in Ea. subst a. now destruct (String.eqb k k').
    + rewrite IH. destruct (String.eqb k k') eqn:Ek; [|reflexivity].
      apply String.eqb_eq in Ek. subst k'. now rewrite Ea.
Qed.

Lemma lookup_insert_key {V : Type} (k k' : string) (v : V) (ps : list (string * V)) :
  has_key k ps = false ->
  lookup k' (insert_key k v ps) = if String.eqb k k' then Some v else lookup k' ps.
Proof.
  induction ps as [|[a x] ps IH]; intros Hk; cbn [insert_key lookup]; [reflexivity|].
  cbn [has_key] in Hk. apply orb_false_iff in Hk. destruct Hk as [Ha Hk].
  assert (Hcons : lookup k' ((a, x) :: insert_key k v ps)
                  = if String.eqb k k' then Some v else lookup k' ((a, x) :: ps)).
  { cbn [lookup]. rewrite (IH Hk).
    destruct (String.eqb k k') eqn:Ek; [|reflexivity].
    apply String.eqb_eq in Ek. subst k'. now rewrite Ha. }
  assert (Hfront : lookup k' ((k, v) :: (a, x) :: ps)
                   = if String.eqb k k' then Some v else lookup k' ((a, x) :: ps))
    by reflexivity.
  destruct (array_index k) as [i|]; [|exact Hcons].
  destruct (array_index a) as [i'|]; [|exact Hfront].
  destruct (i <? i')%N; [exact Hfront|exact Hcons].
Qed.

(** Writing a property and reading properties back. *)
Lemma lookup_obj_set {V : Type} (k k' : string) (v : V) (ps : list (string * V)) :
  lookup k' (obj_set k v ps) = if String.eqb k k' then Some v else lookup k' ps.
Proof.
  unfold obj_set. destruct (has_key k ps) eqn:Hk.
  - rewrite lookup_replace_key, Hk. reflexivity.
  - now apply lookup_insert_key.
Qed.

Lemma lookup_not_in {V : Type} (k : string) (ps : list (string * V)) :
  ~ In k (map fst ps) -> lookup k ps = None.
Proof.
  induction ps as [|[a x] ps IH]; intros H; [reflexivity|].
  cbn in *. destruct (String.eqb a k) eqn:E.
  - apply String.eqb_eq in E. tauto.
  - apply IH. tauto.
Qed.

Lemma lookup_obj_assign {V : Type} (k : string) :
  forall (source target : list (string * V)),
    NoDup (map fst source) ->
    lookup k (obj_assign target source) =
    match lookup k source with Some v => Some v | None => lookup k target end.
Proof.
  unfold obj_assign.
  induction source as [|[a x] source IH]; intros target Hnd; [reflexivity|].
  cbn [map fst] in Hnd. inversion Hnd as [|? ? Hnotin Hnd']; subst.
  cbn [fold_left fst snd lookup]. rewrite (IH _ Hnd'), lookup_obj_set.
  destruct (String.eqb a k) eqn:E.
  - apply String.eqb_eq in E. subst a. now rewrite (lookup_not_in _ _ Hnotin).
  - reflexivity.
Qed.

Lemma obj_set_fresh {V : Type} (k : string) (v : V) (ps : list (string * V)) :
  array_index k = None -> ~ In k (map fst ps) ->
  obj_set k v ps = (ps ++ [(k, v)])%list.
Proof.
  intros Hidx Hfresh. unfold obj_set.
  rewrite (proj2 (has_key_false _ _) Hfresh). now apply insert_key_plain.
Qed.

Lemma assignKey_plain (k : string) (v : JsValue) (o : Draft) :
  String.eqb k "__proto__" = false ->
  assignKey k v o
  = {| draft_own := obj_set k v (draft_own o); draft_accessor := draft_accessor o |}.
Proof. intros Hk. unfold assignKey. now rewrite Hk. Qed.

(** Filling a draft with properties of distinct, fresh names: every name
    but [__proto__] is appended; [__proto__], met while the accessor is
    still in reach, goes to the setter. *)
Lemma forEach_properties (f : JsValue -> Outcome JsValue) :
  forall props values,
    Forall2 (fun p v => f (snd p) = Ret v) props values ->
    forall acc,
      NoDup (map fst props) ->
      (forall k, In k (map fst props) ->
                 array_index k = None /\ ~ In k (map fst (draft_own acc))) ->
      (In "__proto__" (map fst props) -> draft_accessor acc = true) ->
      exists o,
        forEach props
          (fun obj kv => v <- f (snd kv) ;; Ret (assignKey (fst kv) v obj)) acc
        = Ret o /\
        draft_own o = (draft_own acc ++ assigned (combine (map fst props) values))%list.
Proof.
  induction 1 as [|p v props values Hp _ IH]; intros acc Hnd Hkeys Hacc.
  - exists acc. cbn. now rewrite app_nil_r.
  - cbn [forEach map combine]. rewrite Hp. cbn [bind].
    cbn [map] in Hnd. inversion Hnd as [|? ? Hnotin Hnd']; subst.
    destruct (Hkeys (fst p) (or_introl eq_refl)) as [Hidx Hfresh].
    unfold assigned. cbn [filter fst]. fold (assigned (combine (map fst props) values)).
    destruct (String.eqb (fst p) "__proto__") eqn:Hproto; cbn [negb].
    + apply String.eqb_eq in Hproto.
      assert (Hstep : draft_own (assignKey (fst p) v acc) = draft_own acc).
      { unfold assignKey. rewrite (proj2 (has_key_false _ _) Hfresh).
        rewrite Hacc by (left; exact Hproto). rewrite Hproto. reflexivity. }
      destruct (IH (assignKey (fst p) v acc) Hnd') as (o & Hrun & Hown).
      * intros k Hk. rewrite Hstep. exact (Hkeys k (or_intror Hk)).
      * intros Hin. exfalso. apply Hnotin. now rewrite Hproto.
      * exists o. split; [exact Hrun|]. now rewrite Hown, Hstep.
    + rewrite (assignKey_plain _ v acc Hproto).
      rewrite (obj_set_fresh _ v _ Hidx Hfresh).
      destruct (IH {| draft_own := (draft_own acc ++ [(fst p, v)])%list;
                      draft_accessor := draft_accessor acc |} Hnd')
        as (o & Hrun & Hown).
      * intros k Hk. destruct (Hkeys k (or_intror Hk)) as [Hi Hf].
        split; [exact Hi|]. cbn [draft_own]. rewrite map_app, in_app_iff. cbn.
        intros [H|[H|[]]]; [tauto|]. subst. tauto.
      * intros Hin. cbn [draft_accessor]. apply Hacc. now right.
      * exists o. split; [exact Hrun|]. rewrite Hown. cbn [draft_own].
        now rewrite <- app_assoc.
Qed.

(** X8: an object schema (with no explicit example or default, which come
    first) synthesizes to a mapping with the declared property names, in
    declaration order, each with the value synthesized from its schema; a
    property that synthesizes to null is kept, and a property named
    [__proto__] is the one that is left out, because the assignment
    [obj[key] = ...] reaches the inherited setter instead of writing a
    property.  (Property names are distinct; those that are array indices
    are left aside: they would be enumerated first.) *)
Theorem synthesize_object_properties :
  forall (fuel : nat) (spec node resolved : JsValue)
         (props : list (string * JsValue)) (values : list JsValue),
    truthy node = true ->
    resolveSchema fuel spec node = Ret resolved ->
    truthy resolved = true ->
    get resolved "example" = JUndefined ->
    get resolved "default" = JUndefined ->
    get resolved "type" = JStr "object" ->
    get resolved "properties" = JObj props ->
    NoDup (map fst props) ->
    Forall (fun k => array_index k = None) (map fst props) ->
    Forall2 (fun p v => generateExampleFromSchema fuel spec (snd p) = Ret v)
            props values ->
    generateExampleFromSchema (S fuel) spec node
    = Ret (JObj (assigned (combine (map fst props) values))).
Proof.
  intros fuel spec node resolved props values Hn Hres Hr Hex Hdef Hty Hprops
         Hnd Hidx Hvals.
  cbn [generateExampleFromSchema].
  rewrite Hn, Hres. cbn [negb bind]. rewrite Hr, Hex, Hdef, Hty, Hprops.
  cbn [negb is_undefined strict_eq_str String.eqb Ascii.eqb Bool.eqb orb truthy
       own_entries].
  destruct (forEach_properties _ props values Hvals emptyDraft Hnd)
    as (o & Hrun & Hown).
  - intros k Hk. rewrite Forall_forall in Hidx. split; [now apply Hidx|tauto].
  - reflexivity.
  - rewrite Hrun. cbn [bind]. now rewrite Hown.
Qed.

Lemma synthesize_object_properties_witness :
  generateExampleFromSchema 3 petSpec profileSchema
  = Ret (JObj [("name", JStr "string"); ("owner", JNull);
               ("tags", JArr [JStr "string"])]) /\
  generateExampleFromSchema 2 petSpec shadowedSchema
  = Ret (JObj [("a", JNum 0); ("b", JBool true)]).
Proof.
  split.
  - apply (synthesize_object_properties 2 petSpec profileSchema profileSchema
             [("name", JObj [("type", JStr "string")]);
              ("owner", JObj [("$ref", JStr "#/components/schemas/Missing")]);
              ("tags", JObj [("$ref", JStr "#/components/schemas/Names")])]
             [JStr "string"; JNull; JArr [JStr "string"]]);
      try reflexivity.
    + repeat constructor; cbn; intuition discriminate.
    + repeat constructor.
    + repeat constructor.
  - apply (synthesize_object_properties 1 petSpec shadowedSchema shadowedSchema
             [("a", JObj [("type", JStr "integer")]);
              ("__proto__", JObj [("type", JStr "string")]);
              ("b", JObj [("type", JStr "boolean")])]
             [JNum 0; JStr "string"; JBool true]);
      try reflexivity.
    + repeat constructor; cbn; intuition discriminate.
    + repeat constructor.
    + repeat constructor.
Defined.

Lemma forEach_allOf (f : JsValue -> Outcome JsValue) :
  forall subSchemas examples,
    Forall2 (fun s e => f s = Ret e) subSchemas examples ->
    forall acc,
      forEach subSchemas
        (fun merged subSchema =>
           example <- f subSchema ;;
           Ret (if truthy example && typeof_object example
                then Object_assign merged (own_entries example)
                else merged))
        acc
      = Ret (fold_left
               (fun merged example =>
                  if truthy example && typeof_object example
                  then Object_assign merged (own_entries example)
                  else merged)
               examples acc).
Proof.
  induction 1 as [|s e subSchemas examples Hs _ IH]; intros acc; [reflexivity|].
  cbn [forEach fold_left]. rewrite Hs. cbn [bind]. apply IH.
Qed.

(** An assignment and the other keys: whatever [__proto__] does, a key
    that is not [__proto__] reads back the value last assigned to it. *)
Lemma lookup_assignKey (k a : string) (x : JsValue) (o : Draft) :
  k <> "__proto__" ->
  lookup k (draft_own (assignKey a x o))
  = if String.eqb a k then Some x else lookup k (draft_own o).
Proof.
  intros Hk. unfold assignKey.
  destruct (String.eqb a "__proto__" && negb (has_key a (draft_own o))
            && draft_accessor o) eqn:Hset; cbn [draft_own].
  - apply andb_true_iff in Hset. destruct Hset as [Hset _].
    apply andb_true_iff in Hset. destruct Hset as [Ha _].
    apply String.eqb_eq in Ha. subst a.
    destruct (String.eqb "__proto__" k) eqn:E; [|reflexivity].
    apply String.eqb_eq in E. congruence.
  - apply lookup_obj_set.
Qed.

Lemma lookup_Object_assign (k : string) :
  k <> "__proto__" ->
  forall (source : list (string * JsValue)) (target : Draft),
    NoDup (map fst source) ->
    lookup k (draft_own (Object_assign target source)) =
    match lookup k source with Some v => Some v | None => lookup k (draft_own target) end.
Proof.
  intros Hk. unfold Object_assign.
  induction source as [|[a x] source IH]; intros target Hnd; [reflexivity|].
  cbn [map fst] in Hnd. inversion Hnd as [|? ? Hnotin Hnd']; subst.
  cbn [fold_left fst snd lookup]. rewrite (IH _ Hnd'), (lookup_assignKey _ _ _ _ Hk).
  destruct (String.eqb a k) eqn:E.
  - apply String.eqb_eq in E. subst a. now rewrite (lookup_not_in _ _ Hnotin).
  - reflexivity.
Qed.

Lemma lookup_merge (k : string) :
  k <> "__proto__" ->
  forall examples acc,
    Forall distinctKeys examples ->
    lookup k
      (draft_own
         (fold_left
            (fun merged example =>
               if truthy example && typeof_object example
               then Object_assign merged (own_entries example)
               else merged)
            examples acc))
    = match lastBinding k examples with
      | Some v => Some v
      | None => lookup k (draft_own acc)
      end.
Proof.
  intros Hk.
  induction examples as [|e examples IH]; intros acc Hok; [reflexivity|].
  inversion Hok as [|? ? Hnd Hrest]; subst.
  cbn [fold_left lastBinding]. rewrite (IH _ Hrest).
  destruct (lastBinding k examples); [reflexivity|].
  destruct (truthy e && typeof_object e); [|reflexivity].
  now apply lookup_Object_assign.
Qed.

(** X9: for an untyped node with [allOf] (no explicit example or default,
    and no usable [oneOf]/[anyOf], which come first), the result is one
    mapping in which every key other than [__proto__] has the value that
    the last branch example having that key gives it.  The branch examples
    that take part are the objects: a mapping with its keys and an array
    with its indices; a null or scalar example is skipped.  (The keys of
    each example are pairwise distinct, as an object's keys are.) *)
Theorem synthesize_allOf_last_wins :
  forall (fuel : nat) (spec node resolved : JsValue)
         (subSchemas examples : list JsValue),
    truthy node = true ->
    resolveSchema fuel spec node = Ret resolved ->
    truthy resolved = true ->
    get resolved "example" = JUndefined ->
    get resolved "default" = JUndefined ->
    typedCase (get resolved "type") = false ->
    truthy (get (get resolved "oneOf") "0") = false ->
    truthy (get (get resolved "anyOf") "0") = false ->
    get resolved "allOf" = JArr subSchemas ->
    Forall2 (fun s e => generateExampleFromSchema fuel spec s = Ret e)
            subSchemas examples ->
    Forall distinctKeys examples ->
    generateExampleFromSchema (S fuel) spec node = Ret (JObj (mergeExamples examples)) /\
    forall k,
      k <> "__proto__" ->
      lookup k (mergeExamples examples) = lastBinding k examples.
Proof.
  intros fuel spec node resolved subSchemas examples Hn Hres Hr Hex Hdef Hty
         Hone Hany Hall Hsubs Hok.
  split.
  - cbn [generateExampleFromSchema].
    rewrite Hn, Hres. cbn [negb bind]. rewrite Hr, Hex, Hdef.
    cbn [negb is_undefined].
    unfold typedCase in Hty. cbn [existsb] in Hty.
    repeat (apply orb_false_iff in Hty; destruct Hty as [? Hty]).
    repeat match goal with H : strict_eq_str _ _ = false |- _ => rewrite H; clear H end.
    cbn [orb]. rewrite Hone, Hany, Hall. cbn [truthy].
    rewrite (forEach_allOf _ _ _ Hsubs). reflexivity.
  - intros k Hk. unfold mergeExamples.
    rewrite (lookup_merge k Hk examples emptyDraft Hok).
    destruct (lastBinding k examples); reflexivity.
Qed.

Lemma synthesize_allOf_last_wins_witness :
  generateExampleFromSchema 3 petSpec mergedPetSchema
  = Ret (JObj [("0", JStr "string");
               ("id", JStr "550e8400-e29b-41d4-a716-446655440000");
               ("name", JStr "string")]).
Proof.
  apply (proj1 (synthesize_allOf_last_wins 2 petSpec mergedPetSchema mergedPetSchema
           [JObj [("type", JStr "object");
                  ("properties", JObj [("id", JObj [("type", JStr "integer")]);
                                       ("name", JObj [("type", JStr "string")])])];
            JObj [("type", JStr "string")];
            JObj [("type", JStr "array"); ("items", JObj [("type", JStr "string")])];
            JObj [("type", JStr "object");
                  ("properties", JObj [("id", JObj [("type", JStr "string");
                                                    ("format", JStr "uuid")])])]]
           [JObj [("id", JNum 0); ("name", JStr "string")];
            JStr "string";
            JArr [JStr "string"];
            JObj [("id", JStr "550e8400-e29b-41d4-a716-446655440000")]]
           eq_refl eq_refl eq_refl eq_refl eq_refl eq_refl eq_refl eq_refl eq_refl
           ltac:(repeat constructor)
           ltac:(repeat constructor; cbn; intuition discriminate))).
Defined.

(** X10: for a string, number or integer schema with an [enum] list (and
    no explicit example or default, which come first), the example is the
    first listed value, before any format or placeholder; an empty list
    gives undefined. *)
Theorem synthesize_enum_first_value :
  forall (fuel : nat) (spec node resolved : JsValue) (type : string)
         (values : list JsValue),
    truthy node = true ->
    resolveSchema fuel spec node = Ret resolved ->
    truthy resolved = true ->
    get resolved "example" = JUndefined ->
    get resolved "default" = JUndefined ->
    get resolved "type" = JStr type ->
    In type ["string"; "number"; "integer"] ->
    get resolved "enum" = JArr values ->
    generateExampleFromSchema (S fuel) spec node = Ret (nth 0 values JUndefined).
Proof.
  intros fuel spec node resolved type values Hn Hres Hr Hex Hdef Hty Hin Henum.
  cbn [generateExampleFromSchema].
  rewrite Hn, Hres. cbn [negb bind]. rewrite Hr, Hex, Hdef, Hty, Henum.
  cbn [In] in Hin. destruct Hin as [<-|[<-|[<-|[]]]]; reflexivity.
Qed.

Lemma synthesize_enum_first_value_witness :
  generateExampleFromSchema 1 petSpec
    (JObj [("type", JStr "string"); ("format", JStr "email");
           ("enum", JArr [JStr "asc"; JStr "desc"])]) = Ret (JStr "asc") /\
  generateExampleFromSchema 1 petSpec
    (JObj [("type", JStr "integer"); ("enum", JArr [])]) = Ret JUndefined.
Proof.
  split.
  - apply (synthesize_enum_first_value 0 petSpec _
             (JObj [("type", JStr "string"); ("format", JStr "email");
                    ("enum", JArr [JStr "asc"; JStr "desc"])])
             "string" [JStr "asc"; JStr "desc"]);
      try reflexivity. cbn. tauto.
  - apply (synthesize_enum_first_value 0 petSpec _
             (JObj [("type", JStr "integer"); ("enum", JArr [])])
             "integer" []);
      try reflexivity. cbn. tauto.
Defined.

(** X11: synthesis has no cycle guard either: an array schema whose items
    refer back to it, or an object schema whose first property does (the
    schema having no explicit example or default, which would be returned
    first), exhausts every budget. *)
Theorem synthesize_self_reference_diverges :
  forall (spec node : JsValue) (ref : string),
    truthy node = true ->
    truthy (get node "$ref") = false ->
    get node "example" = JUndefined ->
    get node "default" = JUndefined ->
    ref <> "" ->
    resolveRef spec ref = node ->
    (get node "type" = JStr "array" /\
     get node "items" = JObj [("$ref", JStr ref)]) \/
    (get node "type" = JStr "object" /\
     exists k rest,
       get node "properties" = JObj ((k, JObj [("$ref", JStr ref)]) :: rest)) ->
    forall fuel, generateExampleFromSchema fuel spec node = OutOfFuel.
Proof.
  intros spec node ref Hn Href Hex Hdef Hne Hself Hshape.
  apply String.eqb_neq in Hne.
  assert (Hbody : forall fuel,
             generateExampleFromSchema fuel spec (JObj [("$ref", JStr ref)]) = OutOfFuel ->
             generateExampleFromSchema (S fuel) spec node = OutOfFuel).
  { intros fuel Hback. cbn [generateExampleFromSchema].
    rewrite Hn, (resolveSchema_plain _ _ _ Hn Href). cbn [negb bind].
    rewrite Hn, Hex, Hdef. cbn [negb is_undefined].
    destruct Hshape as [[Hty Hitems]|[Hty (k & rest & Hprops)]]; rewrite Hty.
    - cbn [strict_eq_str String.eqb Ascii.eqb Bool.eqb orb].
      rewrite Hitems, Hback. reflexivity.
    - cbn [strict_eq_str String.eqb Ascii.eqb Bool.eqb orb].
      rewrite Hprops. cbn [truthy own_entries forEach snd]. rewrite Hback.
      reflexivity. }
  assert (Hboth : forall fuel,
             generateExampleFromSchema fuel spec node = OutOfFuel /\
             generateExampleFromSchema fuel spec (JObj [("$ref", JStr ref)]) = OutOfFuel).
  { induction fuel as [|fuel [IHnode IHback]]; [split; reflexivity|].
    split; [now apply Hbody|].
    cbn [generateExampleFromSchema truthy negb].
    rewrite resolveSchema_unfold. cbv zeta.
    cbn [truthy negb get lookup String.eqb Ascii.eqb Bool.eqb].
    rewrite Hne. cbn [negb]. rewrite Hself, Hn.
    destruct fuel as [|fuel]; [reflexivity|].
    rewrite (resolveSchema_plain _ _ _ Hn Href). cbn [bind].
    rewrite Hn, Hex, Hdef. cbn [negb is_undefined].
    destruct Hshape as [[Hty Hitems]|[Hty (k & rest & Hprops)]]; rewrite Hty.
    - cbn [strict_eq_str String.eqb Ascii.eqb Bool.eqb orb].
      rewrite Hitems, IHback. reflexivity.
    - cbn [strict_eq_str String.eqb Ascii.eqb Bool.eqb orb].
      rewrite Hprops. cbn [truthy own_entries forEach snd]. rewrite IHback.
      reflexivity. }
  intros fuel. apply Hboth.
Qed.

Lemma synthesize_self_reference_diverges_witness :
  generateExampleFromSchema 50 treeSpec
    (JObj [("type", JStr "array");
           ("items", JObj [("$ref", JStr "#/components/schemas/Tree")])])
  = OutOfFuel.
Proof.
  apply (synthesize_self_reference_diverges treeSpec
           (JObj [("type", JStr "array");
                  ("items", JObj [("$ref", JStr "#/components/schemas/Tree")])])
           "#/components/schemas/Tree");
    try reflexivity; [discriminate|].
  left. split; reflexivity.
Defined.

(** ** Schema names *)

Lemma getSchemaName_unfold fuel schema :
  getSchemaName fuel schema =
  if negb (truthy schema) then Ret (JStr "unknown")
  else
    let r := get schema "$ref" in
    if truthy r then
      match r with
      | JStr ref => Ret (JStr (last (split "/" ref) ""))
      | _ => Throw TypeError
      end
    else if strict_eq_str (get schema "type") "array" && truthy (get schema "items") then
      match fuel with
      | O => OutOfFuel
      | S fuel' =>
          inner <- getSchemaName fuel' (get schema "items") ;;
          Ret (JStr (toStringJs inner ++ "[]"))
      end
    else Ret (js_or (get schema "type") (JStr "unknown")).
Proof. destruct fuel; reflexivity. Qed.

Lemma depth_lookup (k : string) (ps : list (string * JsValue)) (x : JsValue) :
  lookup k ps = Some x ->
  depth x <= fold_right (fun p d => Nat.max (depth (snd p)) d) 0 ps.
Proof.
  induction ps as [|[a y] ps IH]; [discriminate|].
  cbn [lookup fold_right snd]. destruct (String.eqb a k).
  - intros [= ->]. lia.
  - intros H. specialize (IH H). lia.
Qed.

Lemma depth_items (schema : JsValue) :
  truthy (get schema "items") = true ->
  depth (get schema "items") < depth schema.
Proof.
  destruct schema as [| | | | |s|xs|ps]; try discriminate.
  cbn [get]. destruct (lookup "items" ps) as [x|] eqn:Hx; [|discriminate].
  intros _. cbn [depth]. apply depth_lookup in Hx. lia.
Qed.

(** X12: [getSchemaName] follows no reference and always finishes: a
    budget of the nesting depth of the schema is enough for a result (a
    name, or a type error for a [$ref] that is not a string). *)
Theorem getSchemaName_terminates :
  forall (fuel : nat) (schema : JsValue),
    depth schema <= fuel ->
    getSchemaName fuel schema <> OutOfFuel.
Proof.
  induction fuel as [|fuel IH]; intros schema Hd;
    rewrite getSchemaName_unfold; cbv zeta;
    destruct (truthy schema); cbn [negb]; try discriminate;
    destruct (truthy (get schema "$ref"));
    try (destruct (get schema "$ref"); discriminate);
    destruct (strict_eq_str (get schema "type") "array"); cbn [andb];
    try discriminate;
    destruct (truthy (get schema "items")) eqn:Hitems; try discriminate;
    pose proof (depth_items schema Hitems) as Hlt.
  - lia.
  - specialize (IH (get schema "items") ltac:(lia)).
    destruct (getSchemaName fuel (get schema "items")); cbn [bind];
      [discriminate|discriminate|congruence].
Qed.

Lemma getSchemaName_terminates_witness :
  getSchemaName 3
    (nestedArrays 2 (JObj [("$ref", JStr "#/components/schemas/Pet")]))
  <> OutOfFuel.
Proof.
  apply (getSchemaName_terminates 3). cbn. lia.
Defined.

Lemma split_two (sep : ascii) :
  forall s, occurs sep s = true -> exists h h' t, split sep s = h :: h' :: t.
Proof.
  induction s as [|c s IH]; [discriminate|].
  cbn [occurs split]. destruct (Ascii.eqb c sep); cbn [orb].
  - intros _. pose proof (split_not_nil sep s) as Hne.
    destruct (split sep s) as [|h' t]; [congruence|]. now exists "", h', t.
  - intros H. destruct (IH H) as (h & h' & t & ->). now exists (String c h), h', t.
Qed.

Lemma last_split_cons (sep c : ascii) (s : string) :
  last (split sep (String c s)) "" =
  if Ascii.eqb c sep || occurs sep s then last (split sep s) "" else String c s.
Proof.
  cbn [split]. destruct (Ascii.eqb c sep); cbn [orb].
  - pose proof (split_not_nil sep s) as Hne.
    destruct (split sep s); [congruence|reflexivity].
  - destruct (occurs sep s) eqn:Ho.
    + destruct (split_two sep s Ho) as (h & h' & t & ->). reflexivity.
    + now rewrite (split_no_separator sep s Ho).
Qed.

Lemma last_split (sep : ascii) :
  forall s,
    occurs sep (last (split sep s) "") = false /\
    exists pre,
      s = pre ++ last (split sep s) "" /\
      (pre = "" \/ exists before, pre = before ++ String sep "").
Proof.
  induction s as [|c s (Hno & pre & Hs & Hpre)].
  - split; [reflexivity|]. exists "". auto.
  - rewrite last_split_cons.
    destruct (Ascii.eqb c sep) eqn:Ec; cbn [orb].
    + apply Ascii.eqb_eq in Ec. subst c. split; [exact Hno|].
      exists (String sep pre). split; [cbn; now rewrite <- Hs|].
      right. destruct Hpre as [->|(before & ->)].
      * now exists "".
      * now exists (String sep before).
    + destruct (occurs sep s) eqn:Ho.
      * split; [exact Hno|]. exists (String c pre).
        split; [cbn; now rewrite <- Hs|]. right.
        destruct Hpre as [->|(before & ->)].
        -- cbn in Hs. rewrite <- Hs in Hno. congruence.
        -- now exists (String c before).
      * split; [cbn; now rewrite Ec, Ho|]. exists "". auto.
Qed.

(** X13: the name of a reference node is the text after the last slash of
    its [$ref] (the whole text when it has no slash); the specification is
    not consulted, so a broken reference is named all the same. *)
Theorem getSchemaName_of_reference :
  forall (fuel : nat) (schema : JsValue) (ref : string),
    truthy schema = true ->
    get schema "$ref" = JStr ref ->
    ref <> "" ->
    exists name,
      getSchemaName fuel schema = Ret (JStr name) /\
      occurs "/" name = false /\
      exists pre,
        ref = pre ++ name /\ (pre = "" \/ exists before, pre = before ++ "/").
Proof.
  intros fuel schema ref Hs Href Hne.
  exists (last (split "/" ref) ""). split.
  - rewrite getSchemaName_unfold. cbv zeta. rewrite Hs, Href. cbn [negb truthy].
    apply String.eqb_neq in Hne. now rewrite Hne.
  - apply last_split.
Qed.

Lemma getSchemaName_of_reference_witness :
  exists name,
    getSchemaName 0 (JObj [("$ref", JStr "#/components/schemas/Missing")])
    = Ret (JStr name) /\
    occurs "/" name = false /\
    exists pre,
      "#/components/schemas/Missing" = pre ++ name /\
      (pre = "" \/ exists before, pre = before ++ "/").
Proof.
  apply (getSchemaName_of_reference 0
           (JObj [("$ref", JStr "#/components/schemas/Missing")])
           "#/components/schemas/Missing"); [reflexivity|reflexivity|discriminate].
Defined.

Lemma append_assoc (a b c : string) : (a ++ b) ++ c = a ++ (b ++ c).
Proof. induction a as [|x a IH]; [reflexivity|]. cbn. now rewrite IH. Qed.

Lemma append_nil_r (a : string) : a ++ "" = a.
Proof. induction a as [|x a IH]; [reflexivity|]. cbn. now rewrite IH. Qed.

(** X14: each array level around a named schema adds one "[]" to the name:
    an array of arrays of Pet is "Pet[][]". *)
Theorem getSchemaName_nested_arrays :
  forall (n fuel : nat) (items : JsValue) (name : string),
    truthy items = true ->
    getSchemaName fuel items = Ret (JStr name) ->
    getSchemaName (n + fuel) (nestedArrays n items) = Ret (JStr (name ++ brackets n)).
Proof.
  induction n as [|n IH]; intros fuel items name Ht Hname.
  - cbn [Nat.add nestedArrays brackets]. now rewrite Hname, append_nil_r.
  - cbn [Nat.add nestedArrays brackets]. rewrite getSchemaName_unfold. cbv zeta.
    cbn [truthy negb get lookup String.eqb Ascii.eqb Bool.eqb strict_eq_str andb].
    assert (Hnest : truthy (nestedArrays n items) = true)
      by (destruct n; [exact Ht|reflexivity]).
    rewrite Hnest, (IH fuel items name Ht Hname). cbn [bind toStringJs].
    now rewrite append_assoc.
Qed.

Lemma getSchemaName_nested_arrays_witness :
  getSchemaName 2
    (nestedArrays 2 (JObj [("$ref", JStr "#/components/schemas/Pet")]))
  = Ret (JStr "Pet[][]").
Proof.
  apply (getSchemaName_nested_arrays 2 0
           (JObj [("$ref", JStr "#/components/schemas/Pet")]) "Pet");
    reflexivity.
Defined.

(** ** Endpoint Extractor: more properties *)

Lemma forEach_methods_ok (path : string) (pathItem : JsValue)
    (acc : list ParsedEndpoint) :
  is_nullish pathItem = false ->
  forEach HTTP_METHODS
    (fun endpoints method =>
       operation <- member pathItem (method_name method) ;;
       if truthy operation then
         Ret (endpoints ++
              [{| id := endpoint_id method path;
                  path := path;
                  method := method;
                  operation := operation;
                  pathParameters := get pathItem "parameters" |}])%list
       else Ret endpoints)
    acc
  = Ret (acc ++ endpointsOfPathItem path pathItem)%list.
Proof.
  intros Hitem.
  rewrite (forEach_ret _
             (fun acc m =>
                (acc ++ if truthy (get pathItem (method_name m)) then
                          [{| id := endpoint_id m path;
                              path := path;
                              method := m;
                              operation := get pathItem (method_name m);
                              pathParameters := get pathItem "parameters" |}]
                        else [])%list)).
  - now rewrite fold_left_flat_map.
  - intros acc' m _. unfold member. rewrite Hitem. cbn [bind].
    destruct (truthy (get pathItem (method_name m))); [reflexivity|].
    now rewrite app_nil_r.
Qed.

Lemma forEach_paths_null (entries : list (string * JsValue)) :
  Exists (fun entry => is_nullish (snd entry) = true) entries ->
  forall acc,
    forEach entries
      (fun endpoints entry =>
         forEach HTTP_METHODS
           (fun endpoints method =>
              operation <- member (snd entry) (method_name method) ;;
              if truthy operation then
                Ret (endpoints ++
                     [{| id := endpoint_id method (fst entry);
                         path := fst entry;
                         method := method;
                         operation := operation;
                         pathParameters := get (snd entry) "parameters" |}])%list
              else Ret endpoints)
           endpoints)
      acc
    = Throw TypeError.
Proof.
  induction entries as [|entry entries IH]; intros Hex acc;
    [inversion Hex|].
  cbn [forEach].
  destruct (is_nullish (snd entry)) eqn:Hitem.
  - cbn [HTTP_METHODS forEach]. unfold member at 1. now rewrite Hitem.
  - rewrite (forEach_methods_ok (fst entry) (snd entry) acc Hitem). cbn [bind].
    apply IH. inversion Hex as [? ? H|? ? H]; subst; [congruence|exact H].
Qed.

(** X15: for a specification with a paths value (what the loader checks),
    extraction has exactly two outcomes: the endpoints in order when every
    path item is an object, and a type error, with no endpoint at all, as
    soon as one path item is null or undefined. *)
Theorem extractEndpoints_all_or_nothing :
  forall (spec : JsValue),
    is_nullish spec = false ->
    truthy (get spec "paths") = true ->
    (Forall (fun entry => is_nullish (snd entry) = false)
            (own_entries (get spec "paths")) /\
     extractEndpoints spec = Ret (endpointsInOrder (get spec "paths"))) \/
    (Exists (fun entry => is_nullish (snd entry) = true)
            (own_entries (get spec "paths")) /\
     extractEndpoints spec = Throw TypeError).
Proof.
  intros spec Hs Hp.
  assert (Hpn : is_nullish (get spec "paths") = false)
    by (destruct (get spec "paths"); try reflexivity; discriminate).
  destruct (Forall_Exists_dec (fun entry : string * JsValue => is_nullish (snd entry) = false)
              (fun entry => bool_dec (is_nullish (snd entry)) false)
              (own_entries (get spec "paths"))) as [Hall|Hex].
  - left. split; [exact Hall|]. now apply extractEndpoints_in_order.
  - right.
    assert (Hex' : Exists (fun entry : string * JsValue => is_nullish (snd entry) = true)
                     (own_entries (get spec "paths"))).
    { apply Exists_exists in Hex. destruct Hex as (entry & Hin & Hn).
      apply Exists_exists. exists entry. split; [exact Hin|].
      now destruct (is_nullish (snd entry)). }
    split; [exact Hex'|].
    unfold extractEndpoints, member, Object_entries. rewrite Hs. cbn [bind].
    rewrite Hpn. cbn [bind]. now apply forEach_paths_null.
Qed.

Lemma extractEndpoints_all_or_nothing_witness :
  extractEndpoints
    (JObj [("openapi", JStr "3.0.0");
           ("paths", JObj [("/a", JObj [("get", JObj [])]); ("/b", JNull)])])
  = Throw TypeError.
Proof.
  destruct (extractEndpoints_all_or_nothing
              (JObj [("openapi", JStr "3.0.0");
                     ("paths", JObj [("/a", JObj [("get", JObj [])]); ("/b", JNull)])])
              eq_refl eq_refl) as [[Hall _]|[_ H]]; [|exact H].
  exfalso. inversion Hall as [|? ? _ Hrest]; subst.
  inversion Hrest as [|? ? Hb _]; subst. discriminate Hb.
Defined.

(** X16: extraction is exact: an endpoint is in the result if and only if
    it is built from a path, a verb and the truthy operation the path item
    has for that verb; so every id is derived from its own verb and path,
    and there are at most seven endpoints per path. *)
Theorem extractEndpoints_exact :
  forall (spec : JsValue) (eps : list ParsedEndpoint),
    is_nullish spec = false ->
    extractEndpoints spec = Ret eps ->
    Forall (fun entry => is_nullish (snd entry) = false)
           (own_entries (get spec "paths")) ->
    (forall ep,
        In ep eps <->
        exists p item m,
          In (p, item) (own_entries (get spec "paths")) /\
          truthy (get item (method_name m)) = true /\
          ep = {| id := endpoint_id m p; path := p; method := m;
                  operation := get item (method_name m);
                  pathParameters := get item "parameters" |}) /\
    List.length eps <= 7 * List.length (own_entries (get spec "paths")).
Proof.
  intros spec eps Hs Hrun Hitems.
  assert (Hp : is_nullish (get spec "paths") = false).
  { unfold extractEndpoints, member, Object_entries in Hrun.
    rewrite Hs in Hrun. cbn [bind] in Hrun.
    now destruct (is_nullish (get spec "paths")). }
  rewrite (extractEndpoints_in_order spec Hs Hp Hitems) in Hrun.
  injection Hrun as <-. unfold endpointsInOrder. split.
  - intros ep. rewrite in_flat_map. split.
    + intros ([p item] & Hin & Hep). unfold endpointsOfPathItem in Hep.
      apply in_flat_map in Hep. destruct Hep as (m & _ & Hep). cbn [fst snd] in Hep.
      destruct (truthy (get item (method_name m))) eqn:Ht; [|destruct Hep].
      destruct Hep as [<-|[]]. now exists p, item, m.
    + intros (p & item & m & Hin & Ht & ->). exists (p, item). split; [exact Hin|].
      unfold endpointsOfPathItem. apply in_flat_map. exists m. split.
      * destruct m; cbn; tauto.
      * cbn [fst snd]. rewrite Ht. now left.
  - induction (own_entries (get spec "paths")) as [|entry entries IH];
      [cbn; lia|].
    cbn [flat_map List.length]. rewrite length_app.
    assert (Hseven : List.length (endpointsOfPathItem (fst entry) (snd entry)) <= 7).
    { unfold endpointsOfPathItem, HTTP_METHODS. cbn [flat_map].
      repeat match goal with
             | |- context [if ?b then _ else _] => destruct b
             end; cbn; lia. }
    inversion Hitems; subst. specialize (IH ltac:(assumption)). lia.
Qed.

Lemma extractEndpoints_exact_witness :
  List.length abEndpoints <= 7 * 2.
Proof.
  apply (proj2 (extractEndpoints_exact abSpec abEndpoints eq_refl eq_refl
                  ltac:(repeat constructor))).
Defined.

(** ** Tag Grouper: more properties *)

Lemma firstSeen_In :
  forall ts seen x, In x (firstSeen seen ts) -> In x ts.
Proof.
  induction ts as [|t ts IH]; intros seen x Hin; [destruct Hin|].
  cbn [firstSeen] in Hin. destruct (seenIn seen t).
  - right. now apply (IH seen).
  - destruct Hin as [<-|Hin]; [now left|right; now apply (IH _ _ Hin)].
Qed.

Lemma membersOf_In_inv t ep visits :
  In ep (membersOf t visits) -> In (t, ep) visits.
Proof.
  unfold membersOf. intros H. apply in_map_iff in H.
  destruct H as ([t' ep'] & <- & Hin). apply filter_In in Hin.
  destruct Hin as [Hin Hsame]. cbn [fst snd] in *.
  apply sameValueZero_eq in Hsame. now subst.
Qed.

Lemma taggings_In_inv ep eps t :
  In (t, ep) (taggings eps) -> In ep eps /\ In t (declaredTags ep).
Proof.
  unfold taggings. intros H. apply in_flat_map in H.
  destruct H as (ep' & Hep & Hin). apply in_map_iff in Hin.
  destruct Hin as (t' & [= -> ->] & Ht). auto.
Qed.

(** X17: on a well-formed input no two buckets have the same name and no
    bucket is empty. *)
Theorem groupEndpointsByTag_distinct_nonempty :
  forall (spec : JsValue) (eps : list ParsedEndpoint) (buckets : list ParsedTag),
    tagListOk spec = true ->
    forallb tagsOk eps = true ->
    groupEndpointsByTag spec eps = Ret buckets ->
    NoDup (map name buckets) /\
    forall b, In b buckets -> endpoints b <> [].
Proof.
  intros spec eps buckets Hspec Heps Hrun.
  rewrite (groupEndpointsByTag_buckets spec eps Hspec Heps) in Hrun.
  injection Hrun as <-.
  pose proof (taggings_primitive eps Heps) as Hprim. split.
  - rewrite map_map. cbn [tagBucket name]. rewrite map_id.
    apply firstSeen_NoDup. now rewrite Forall_map.
  - intros b Hb. apply in_map_iff in Hb. destruct Hb as (t & <- & Ht).
    apply firstSeen_In in Ht. apply in_map_iff in Ht.
    destruct Ht as ([t' ep] & Heq & Hin). cbn [fst] in Heq. subst t'.
    rewrite Forall_forall in Hprim. specialize (Hprim _ Hin). cbn [fst] in Hprim.
    pose proof (membersOf_In t ep _ Hin Hprim) as Hmem.
    cbn [tagBucket endpoints]. intros Hnil. rewrite Hnil in Hmem. destruct Hmem.
Qed.

Lemma groupEndpointsByTag_distinct_nonempty_witness :
  exists buckets,
    groupEndpointsByTag abSpec abEndpoints = Ret buckets /\
    NoDup (map name buckets).
Proof.
  eexists. split; [reflexivity|].
  apply (proj1 (groupEndpointsByTag_distinct_nonempty abSpec abEndpoints _
                  eq_refl eq_refl eq_refl)).
Defined.

(** X18: an endpoint is listed under a tag only if its operation names
    that tag; an operation with an empty tag list is therefore in no
    bucket at all (it is not put under "Untagged"). *)
Theorem groupEndpointsByTag_only_declared_tags :
  forall (spec : JsValue) (eps : list ParsedEndpoint) (buckets : list ParsedTag),
    tagListOk spec = true ->
    forallb tagsOk eps = true ->
    groupEndpointsByTag spec eps = Ret buckets ->
    (forall b ep, In b buckets -> In ep (endpoints b) ->
        In ep eps /\ In (name b) (declaredTags ep)) /\
    (forall b ep, In b buckets ->
        get (operation ep) "tags" = JArr [] -> ~ In ep (endpoints b)).
Proof.
  intros spec eps buckets Hspec Heps Hrun.
  rewrite (groupEndpointsByTag_buckets spec eps Hspec Heps) in Hrun.
  injection Hrun as <-.
  assert (Hmain : forall b ep,
             In b (map (tagBucket spec (taggings eps))
                       (firstSeen [] (map fst (taggings eps)))) ->
             In ep (endpoints b) -> In ep eps /\ In (name b) (declaredTags ep)).
  { intros b ep Hb Hep. apply in_map_iff in Hb. destruct Hb as (t & <- & _).
    cbn [tagBucket endpoints name] in *.
    now apply taggings_In_inv, membersOf_In_inv. }
  split; [exact Hmain|].
  intros b ep Hb Hempty Hep. destruct (Hmain b ep Hb Hep) as [_ Hin].
  unfold declaredTags, js_or in Hin. rewrite Hempty in Hin. destruct Hin.
Qed.

Lemma groupEndpointsByTag_only_declared_tags_witness :
  groupEndpointsByTag petSpec
    [endpointOf (JObj [("tags", JArr [])]);
     endpointOf (JObj [("tags", JArr [JStr "Pets"])])]
  = Ret [{| name := JStr "Pets"; description := JUndefined;
            endpoints := [endpointOf (JObj [("tags", JArr [JStr "Pets"])])] |}] /\
  ~ In (endpointOf (JObj [("tags", JArr [])]))
       [endpointOf (JObj [("tags", JArr [JStr "Pets"])])].
Proof.
  split; [reflexivity|].
  apply (proj2 (groupEndpointsByTag_only_declared_tags petSpec
                  [endpointOf (JObj [("tags", JArr [])]);
                   endpointOf (JObj [("tags", JArr [JStr "Pets"])])]
                  _ eq_refl eq_refl eq_refl)
               {| name := JStr "Pets"; description := JUndefined;
                  endpoints := [endpointOf (JObj [("tags", JArr [JStr "Pets"])])] |}
               (endpointOf (JObj [("tags", JArr [])]))).
  - now left.
  - reflexivity.
Defined.

Lemma count_step (names : list JsValue) (t : JsValue) (ep : ParsedEndpoint)
    (visits : list (JsValue * ParsedEndpoint)) :
  NoDup names -> is_primitive t = true ->
  list_sum (map (fun n => List.length (membersOf n ((t, ep) :: visits))) names)
  = (if seenIn names t then 1 else 0)
    + list_sum (map (fun n => List.length (membersOf n visits)) names).
Proof.
  intros Hnd Hp. induction Hnd as [|n names Hnotin Hnd IH]; [reflexivity|].
  assert (Hcons : forall a l, list_sum (a :: l) = a + list_sum l) by reflexivity.
  cbn [map seenIn existsb]. fold (seenIn names t). rewrite !Hcons, IH.
  unfold membersOf at 1. cbn [filter fst].
  rewrite (sameValueZero_sym t n).
  destruct (sameValueZero n t) eqn:E; cbn [orb map List.length].
  - apply sameValueZero_eq in E. subst n.
    assert (Hnot : seenIn names t = false).
    { destruct (seenIn names t) eqn:Hs; [|reflexivity].
      apply seenIn_true in Hs. contradiction. }
    rewrite Hnot. unfold membersOf. lia.
  - unfold membersOf. lia.
Qed.

(** X19: nothing is lost or invented by the grouping: the sizes of the
    buckets add up to the number of (endpoint, tag) visits of the scan. *)
Theorem groupEndpointsByTag_counts_every_visit :
  forall (spec : JsValue) (eps : list ParsedEndpoint) (buckets : list ParsedTag),
    tagListOk spec = true ->
    forallb tagsOk eps = true ->
    groupEndpointsByTag spec eps = Ret buckets ->
    list_sum (map (fun b => List.length (endpoints b)) buckets)
    = list_sum (map (fun ep => List.length (declaredTags ep)) eps).
Proof.
  intros spec eps buckets Hspec Heps Hrun.
  rewrite (groupEndpointsByTag_buckets spec eps Hspec Heps) in Hrun.
  injection Hrun as <-.
  pose proof (taggings_primitive eps Heps) as Hprim.
  rewrite map_map. cbn [tagBucket endpoints].
  assert (Hlen : List.length (taggings eps)
                 = list_sum (map (fun ep => List.length (declaredTags ep)) eps)).
  { unfold taggings. induction eps as [|ep eps' IH]; [reflexivity|].
    cbn [flat_map map list_sum]. rewrite length_app, length_map.
    cbn [forallb] in Heps. apply andb_prop in Heps. destruct Heps as [_ Heps].
    rewrite IH; [reflexivity|exact Heps|].
    cbn [taggings flat_map] in Hprim. apply Forall_app in Hprim. tauto. }
  rewrite <- Hlen.
  assert (Hgen : forall visits names,
             NoDup names ->
             Forall (fun v => is_primitive (fst v) = true) visits ->
             (forall v, In v visits -> seenIn names (fst v) = true) ->
             list_sum (map (fun n => List.length (membersOf n visits)) names)
             = List.length visits).
  { induction visits as [|[t ep] visits IH]; intros names Hnd Hp Hcov.
    - cbn. induction names as [|n names IHn]; [reflexivity|].
      inversion Hnd; subst. cbn. now apply IHn.
    - inversion Hp as [|? ? Ht Hp']; subst. cbn [fst] in Ht.
      rewrite (count_step names t ep visits Hnd Ht).
      pose proof (Hcov (t, ep) (or_introl eq_refl)) as Hseen.
      cbn [fst] in Hseen. rewrite Hseen.
      rewrite (IH names Hnd Hp'); [reflexivity|].
      intros v Hv. apply Hcov. now right. }
  apply Hgen.
  - apply firstSeen_NoDup. now rewrite Forall_map.
  - exact Hprim.
  - intros [t ep] Hv. cbn [fst]. rewrite Forall_forall in Hprim.
    pose proof (Hprim _ Hv) as Ht. cbn [fst] in Ht.
    pose proof (firstSeen_complete (map fst (taggings eps)) t
                  (in_map fst _ _ Hv) Ht) as Hin.
    unfold seenIn. apply existsb_exists. exists t. split; [exact Hin|].
    now apply sameValueZero_refl.
Qed.

Lemma groupEndpointsByTag_counts_every_visit_witness :
  exists buckets,
    groupEndpointsByTag abSpec abEndpoints = Ret buckets /\
    list_sum (map (fun b => List.length (endpoints b)) buckets) = 4.
Proof.
  eexists. split; [reflexivity|].
  apply (groupEndpointsByTag_counts_every_visit abSpec abEndpoints _
           eq_refl eq_refl eq_refl).
Defined.

(** ** Code Generators: the request URL *)

Lemma occurs_app c a b : occurs c (a ++ b) = occurs c a || occurs c b.
Proof.
  induction a as [|x a IH]; [reflexivity|]. cbn. rewrite IH. apply orb_assoc.
Qed.

Lemma prefix_app (p a : string) : String.prefix p (p ++ a) = true.
Proof.
  induction p as [|c p IH]; [now destruct a|].
  cbn. destruct (Ascii.ascii_dec c c); [exact IH|congruence].
Qed.

Lemma slice_app (p a : string) : slice (String.length p) (p ++ a) = a.
Proof. induction p as [|c p IH]; [reflexivity|exact IH]. Qed.

Lemma prefix_sound (p s : string) :
  String.prefix p s = true -> s = p ++ slice (String.length p) s.
Proof.
  revert s. induction p as [|c p IH]; intros s H; [reflexivity|].
  destruct s as [|d s]; [discriminate|]. cbn in H.
  destruct (Ascii.ascii_dec c d); [|discriminate]. subst d.
  cbn. now rewrite <- (IH s H).
Qed.

Lemma firstOccurrence_unfold pattern subject :
  firstOccurrence pattern subject =
  if String.prefix pattern subject then
    Some (EmptyString, slice (String.length pattern) subject)
  else
    match subject with
    | EmptyString => None
    | String c rest =>
        match firstOccurrence pattern rest with
        | Some (before, after) => Some (String c before, after)
        | None => None
        end
    end.
Proof. destruct subject; reflexivity. Qed.

(** What [firstOccurrence] finds is an occurrence. *)
Lemma firstOccurrence_sound pattern :
  forall subject before after,
    firstOccurrence pattern subject = Some (before, after) ->
    subject = before ++ pattern ++ after.
Proof.
  induction subject as [|c rest IH]; intros before after H;
    rewrite firstOccurrence_unfold in H;
    destruct (String.prefix pattern _) eqn:Hp.
  - injection H as <- <-. now apply prefix_sound.
  - discriminate.
  - injection H as <- <-. now apply prefix_sound.
  - destruct (firstOccurrence pattern rest) as [[b a]|]; [|discriminate].
    injection H as <- <-. cbn. now rewrite <- (IH b a eq_refl).
Qed.

(** A pattern is found right after a text in which its first character
    does not occur. *)
Lemma firstOccurrence_at (c : ascii) (x : string) :
  forall before after,
    occurs c before = false ->
    firstOccurrence (String c x) (before ++ String c (x ++ after))
    = Some (before, after).
Proof.
  induction before as [|d before IH]; intros after Hb;
    rewrite firstOccurrence_unfold.
  - change ("" ++ String c (x ++ after)) with (String c x ++ after).
    now rewrite prefix_app, slice_app.
  - cbn in Hb. apply orb_false_iff in Hb. destruct Hb as [Hd Hb].
    change (String d before ++ String c (x ++ after))
      with (String d (before ++ String c (x ++ after))).
    cbn [String.prefix].
    destruct (Ascii.ascii_dec c d) as [->|_];
      [now rewrite Ascii.eqb_refl in Hd|].
    now rewrite (IH after Hb).
Qed.

Lemma getSubstitution_plain matched before after :
  forall replacement,
    occurs "$" replacement = false ->
    getSubstitution matched before after replacement = replacement.
Proof.
  induction replacement as [|c rest IH]; intros H; [reflexivity|].
  cbn in H. apply orb_false_iff in H. destruct H as [Hc Hr].
  cbn [getSubstitution]. rewrite Hc. now rewrite (IH Hr).
Qed.

(** Replacing a text without dollar signs by itself changes nothing. *)
Lemma jsReplace_same subject pattern :
  occurs "$" pattern = false -> jsReplace subject pattern pattern = subject.
Proof.
  intros H. unfold jsReplace.
  destruct (firstOccurrence pattern subject) as [[b a]|] eqn:E; [|reflexivity].
  rewrite (getSubstitution_plain _ _ _ _ H).
  symmetry. now apply firstOccurrence_sound.
Qed.

(** X20: with one path-scoped parameter that has an example, the URL is the
    base and the path with the first [{name}] slot replaced by the example;
    everything after that slot, a second [{name}] included, is left as it
    is.  (The text before the slot has no brace and the example no dollar
    sign.) *)
Theorem buildUrl_fills_first_slot :
  forall (base before after name : string) (params : list JsValue) (p : JsValue),
    Forall (fun q => is_nullish q = false) params ->
    pathScoped params = [p] ->
    get p "name" = JStr name ->
    truthy (get p "example") = true ->
    occurs "$" (toStringJs (get p "example")) = false ->
    occurs "{" (base ++ before) = false ->
    buildUrl jsReplace base (before ++ "{" ++ name ++ "}" ++ after) params
    = Ret (base ++ before ++ toStringJs (get p "example") ++ after).
Proof.
  intros base before after name params p Hwf Hpath Hname Hex Hplain Hbrace.
  unfold buildUrl. rewrite (paramsIn_filter "path" params Hwf). cbn [bind].
  fold (pathScoped params). rewrite Hpath. cbn [fold_left].
  rewrite Hname. cbn [toStringJs]. unfold exampleOr, js_or. rewrite Hex, Hex.
  unfold jsReplace.
  replace (base ++ before ++ "{" ++ name ++ "}" ++ after)
    with ((base ++ before) ++ String "{" ((name ++ "}") ++ after))
    by (now rewrite !append_assoc).
  change ("{" ++ name ++ "}") with (String "{" (name ++ "}")).
  rewrite (firstOccurrence_at "{" (name ++ "}") _ _ Hbrace).
  rewrite (getSubstitution_plain _ _ _ _ Hplain).
  now rewrite append_assoc.
Qed.

Lemma buildUrl_fills_first_slot_witness :
  buildUrl jsReplace "https://api.example.com" "/pets/{petId}/copy/{petId}"
    [bareQueryParam; petIdParam]
  = Ret "https://api.example.com/pets/123/copy/{petId}".
Proof.
  apply (buildUrl_fills_first_slot "https://api.example.com" "/pets/"
           "/copy/{petId}" "petId" [bareQueryParam; petIdParam] petIdParam);
    try reflexivity.
  repeat constructor.
Defined.

Lemma exampleOr_fallback (p : JsValue) (fallback : string) :
  truthy (get p "example") = false ->
  truthy (get (get p "schema") "example") = false ->
  exampleOr p fallback = JStr fallback.
Proof. intros H1 H2. unfold exampleOr, js_or. now rewrite H1, H2. Qed.

(** X21: path parameters without an example (or with a falsy one, such as
    0) whose names contain no dollar sign leave the URL as the plain
    concatenation of base and path: their slots stay in it.  (The slot
    [{name}] is then replaced by the text [{name}]; a dollar sign in the
    name would be read as a replacement pattern, see
    [buildUrl_dollar_in_name].) *)
Theorem buildUrl_keeps_slots_without_example :
  forall (base path : string) (params : list JsValue),
    Forall (fun q => is_nullish q = false) params ->
    Forall (fun p =>
              truthy (get p "example") = false /\
              truthy (get (get p "schema") "example") = false /\
              occurs "$" (toStringJs (get p "name")) = false)
           (pathScoped params) ->
    buildUrl jsReplace base path params = Ret (base ++ path).
Proof.
  intros base path params Hwf Hbare.
  unfold buildUrl. rewrite (paramsIn_filter "path" params Hwf). cbn [bind].
  fold (pathScoped params). f_equal.
  generalize (base ++ path) as url.
  induction Hbare as [|p ps (H1 & H2 & H3) _ IH]; intros url; [reflexivity|].
  cbn [fold_left]. rewrite (exampleOr_fallback p _ H1 H2). cbn [toStringJs].
  assert (Hslot : occurs "$" ("{" ++ toStringJs (get p "name") ++ "}") = false).
  { cbn [append occurs Ascii.eqb Bool.eqb orb]. rewrite occurs_app, H3. reflexivity. }
  rewrite (jsReplace_same _ _ Hslot). apply IH.
Qed.

Lemma buildUrl_keeps_slots_without_example_witness :
  buildUrl jsReplace "https://api.example.com" "/pets/{petId}"
    [JObj [("name", JStr "petId"); ("in", JStr "path"); ("example", JNum 0)]]
  = Ret "https://api.example.com/pets/{petId}".
Proof.
  apply (buildUrl_keeps_slots_without_example "https://api.example.com"
           "/pets/{petId}"
           [JObj [("name", JStr "petId"); ("in", JStr "path"); ("example", JNum 0)]]).
  - repeat constructor.
  - repeat constructor.
Defined.

(** A name with a replacement pattern in it: the slot does not stay as it
    was, [$&] is expanded to the matched slot. *)
Lemma buildUrl_dollar_in_name :
  buildUrl jsReplace "" "/x/{a$&}"
    [JObj [("name", JStr "a$&"); ("in", JStr "path")]]
  = Ret "/x/{a{a$&}}".
Proof. reflexivity. Qed.

(** ** Code Generators: query values, headers and the body *)

Lemma hex_digit_alnum n : n < 16 -> is_alnum (hex_digit n) = true.
Proof.
  intros H. do 16 (destruct n as [|n]; [reflexivity|]). lia.
Qed.

Lemma percent_byte_safe n c :
  n < 256 -> occurs c (percent_byte n) = true ->
  c = "%"%char \/ uri_unreserved c = true.
Proof.
  intros Hn H. unfold percent_byte in H. cbn [occurs] in H.
  assert (H16 : n / 16 < 16) by (apply Nat.Div0.div_lt_upper_bound; lia).
  assert (Hm : n mod 16 < 16) by (apply Nat.mod_upper_bound; lia).
  apply orb_true_iff in H. destruct H as [H|H].
  - left. apply Ascii.eqb_eq in H. now subst.
  - right. apply orb_true_iff in H. destruct H as [H|H].
    + apply Ascii.eqb_eq in H. subst c. unfold uri_unreserved.
      now rewrite (hex_digit_alnum _ H16).
    + rewrite orb_false_r in H. apply Ascii.eqb_eq in H. subst c.
      unfold uri_unreserved. now rewrite (hex_digit_alnum _ Hm).
Qed.

Lemma nat_of_ascii_bound c : nat_of_ascii c < 256.
Proof.
  destruct c as [[] [] [] [] [] [] [] []]; vm_compute; lia.
Qed.

(** Every character of an encoded text is a percent sign or unreserved. *)
Lemma encodeURIComponent_safe :
  forall s c,
    occurs c (encodeURIComponent s) = true ->
    c = "%"%char \/ uri_unreserved c = true.
Proof.
  induction s as [|d s IH]; intros c H; [discriminate|].
  cbn [encodeURIComponent] in H. cbv zeta in H. rewrite occurs_app in H.
  apply orb_true_iff in H. destruct H as [H|H]; [|now apply IH].
  pose proof (nat_of_ascii_bound d) as Hd.
  destruct (uri_unreserved d) eqn:Hu.
  - cbn [occurs] in H. rewrite orb_false_r in H. apply Ascii.eqb_eq in H.
    subst. now right.
  - destruct (nat_of_ascii d <? 128)%nat.
    + now apply (percent_byte_safe (nat_of_ascii d)).
    + rewrite occurs_app in H. apply orb_true_iff in H. destruct H as [H|H].
      * apply (percent_byte_safe (192 + nat_of_ascii d / 64)); [|exact H].
        assert (nat_of_ascii d / 64 < 4)
          by (apply Nat.Div0.div_lt_upper_bound; lia). lia.
      * apply (percent_byte_safe (128 + nat_of_ascii d mod 64)); [|exact H].
        assert (nat_of_ascii d mod 64 < 64) by (apply Nat.mod_upper_bound; lia).
        lia.
Qed.

(** X22: in a query pair the value is always encoded: whatever the example
    is, the text after "name=" holds no character that delimits a URL or a
    query string (no ampersand, equals sign, question mark, hash, space,
    slash or plus). *)
Theorem queryPair_value_is_encoded :
  forall (p : JsValue),
    exists value,
      queryPair p = toStringJs (get p "name") ++ "=" ++ value /\
      (forall c, occurs c value = true -> c = "%"%char \/ uri_unreserved c = true) /\
      Forall (fun c => occurs c value = false) urlDelimiters.
Proof.
  intros p. eexists. split; [reflexivity|]. split.
  - apply encodeURIComponent_safe.
  - apply Forall_forall. intros c Hc.
    destruct (occurs c (encodeURIComponent (toStringJs (exampleOr p "value"))))
      eqn:Ho; [|reflexivity].
    unfold urlDelimiters in Hc. cbn [In] in Hc.
    destruct (encodeURIComponent_safe _ _ Ho) as [Hp|Hu].
    + subst c.
      repeat (destruct Hc as [Hc|Hc]; [discriminate Hc|]). destruct Hc.
    + repeat (destruct Hc as [Hc|Hc];
              [subst c; vm_compute in Hu; discriminate Hu|]).
      destruct Hc.
Qed.

Lemma keys_replace_key {V : Type} (k : string) (v : V) (ps : list (string * V)) :
  map fst (replace_key k v ps) = map fst ps.
Proof.
  induction ps as [|[a x] ps IH]; [reflexivity|].
  cbn [replace_key]. destruct (String.eqb a k) eqn:E; cbn [map fst].
  - apply String.eqb_eq in E. now subst.
  - now rewrite IH.
Qed.

Lemma in_keys_insert_key {V : Type} (k x : string) (v : V) (ps : list (string * V)) :
  In x (map fst (insert_key k v ps)) <-> x = k \/ In x (map fst ps).
Proof.
  induction ps as [|[a y] ps IH]; [cbn; intuition congruence|].
  cbn [insert_key].
  assert (Hfront : In x (map fst ((k, v) :: (a, y) :: ps))
                   <-> x = k \/ In x (map fst ((a, y) :: ps)))
    by (cbn; intuition congruence).
  assert (Hcons : In x (map fst ((a, y) :: insert_key k v ps))
                  <-> x = k \/ In x (map fst ((a, y) :: ps)))
    by (cbn [map fst In]; rewrite IH; cbn; intuition congruence).
  destruct (array_index k); [|exact Hcons].
  destruct (array_index a); [|exact Hfront].
  destruct (_ <? _)%N; [exact Hfront|exact Hcons].
Qed.

Lemma NoDup_insert_key {V : Type} (k : string) (v : V) (ps : list (string * V)) :
  ~ In k (map fst ps) -> NoDup (map fst ps) ->
  NoDup (map fst (insert_key k v ps)).
Proof.
  induction ps as [|[a y] ps IH]; intros Hk Hnd.
  - cbn. constructor; [tauto|constructor].
  - cbn [insert_key].
    assert (Hfront : NoDup (map fst ((k, v) :: (a, y) :: ps)))
      by (cbn [map fst]; constructor; assumption).
    assert (Hcons : NoDup (map fst ((a, y) :: insert_key k v ps))).
    { cbn [map fst] in *. inversion Hnd as [|? ? Ha Hnd']; subst.
      constructor.
      - rewrite in_keys_insert_key. cbn in Hk. intuition congruence.
      - apply IH; [cbn in Hk; tauto|exact Hnd']. }
    destruct (array_index k); [|exact Hcons].
    destruct (array_index a); [|exact Hfront].
    destruct (_ <? _)%N; [exact Hfront|exact Hcons].
Qed.

(** Writing a property keeps the keys of an object distinct. *)
Lemma NoDup_obj_set {V : Type} (k : string) (v : V) (ps : list (string * V)) :
  NoDup (map fst ps) -> NoDup (map fst (obj_set k v ps)).
Proof.
  intros Hnd. unfold obj_set. destruct (has_key k ps) eqn:Hk.
  - now rewrite keys_replace_key.
  - apply NoDup_insert_key; [now apply has_key_false|exact Hnd].
Qed.

Lemma NoDup_obj_assign {V : Type} :
  forall (source target : list (string * V)),
    NoDup (map fst target) -> NoDup (map fst (obj_assign target source)).
Proof.
  unfold obj_assign. induction source as [|[a x] source IH]; intros target Hnd;
    [exact Hnd|].
  cbn [fold_left fst snd]. apply IH. now apply NoDup_obj_set.
Qed.

(** X23: the headers of every snippet: no header name occurs twice; there
    is always a Content-Type, "application/json" unless the caller gives
    another; a non-empty token sets Authorization to "Bearer <token>",
    over any Authorization of the caller; every other header of the caller
    is passed on unchanged and nothing else is added. *)
Theorem requestHeaders_contents :
  forall (options : GeneratorOptions),
    NoDup (map fst (callerHeaders options)) ->
    NoDup (map fst (requestHeaders options)) /\
    lookup "Content-Type" (requestHeaders options)
    = Some (match lookup "Content-Type" (callerHeaders options) with
            | Some v => v
            | None => "application/json"
            end) /\
    lookup "Authorization" (requestHeaders options)
    = match bearerToken options with
      | Some token => Some ("Bearer " ++ token)
      | None => lookup "Authorization" (callerHeaders options)
      end /\
    forall k,
      k <> "Content-Type" -> k <> "Authorization" ->
      lookup k (requestHeaders options) = lookup k (callerHeaders options).
Proof.
  intros options Hnd.
  assert (Hbase : forall k,
             lookup k (obj_assign [("Content-Type", "application/json")]
                         (callerHeaders options))
             = match lookup k (callerHeaders options) with
               | Some v => Some v
               | None => lookup k [("Content-Type", "application/json")]
               end)
    by (intros k; now apply lookup_obj_assign).
  assert (Hnd0 : NoDup (map fst (obj_assign [("Content-Type", "application/json")]
                                   (callerHeaders options)))).
  { apply NoDup_obj_assign. cbn. constructor; [tauto|constructor]. }
  assert (Hall : forall k,
             lookup k (requestHeaders options)
             = match bearerToken options with
               | Some token =>
                   if String.eqb "Authorization" k then Some ("Bearer " ++ token)
                   else lookup k (obj_assign [("Content-Type", "application/json")]
                                    (callerHeaders options))
               | None => lookup k (obj_assign [("Content-Type", "application/json")]
                                     (callerHeaders options))
               end).
  { intros k. unfold requestHeaders, bearerToken.
    fold (callerHeaders options).
    destruct (authToken options) as [token|]; [|reflexivity].
    destruct (String.eqb token ""); cbn [negb]; [reflexivity|].
    apply lookup_obj_set. }
  split; [|split; [|split]].
  - unfold requestHeaders. fold (callerHeaders options).
    destruct (authToken options) as [token|]; [|exact Hnd0].
    destruct (negb (String.eqb token "")); [|exact Hnd0].
    now apply NoDup_obj_set.
  - rewrite Hall, Hbase.
    destruct (bearerToken options); cbn [String.eqb Ascii.eqb Bool.eqb];
      destruct (lookup "Content-Type" (callerHeaders options)); reflexivity.
  - rewrite Hall, Hbase.
    destruct (bearerToken options); [reflexivity|].
    destruct (lookup "Authorization" (callerHeaders options)); reflexivity.
  - intros k Hct Hauth. rewrite Hall, Hbase.
    apply not_eq_sym in Hct, Hauth.
    apply String.eqb_neq in Hct, Hauth.
    cbn [lookup]. rewrite Hct.
    destruct (bearerToken options); [rewrite Hauth|];
      destruct (lookup k (callerHeaders options)); reflexivity.
Qed.

Lemma requestHeaders_contents_witness :
  requestHeaders
    {| baseUrl := "https://api.example.com";
       headers := Some [("Authorization", "Basic abc"); ("X-Trace", "1")];
       authToken := Some "t0k" |}
  = [("Content-Type", "application/json"); ("Authorization", "Bearer t0k");
     ("X-Trace", "1")] /\
  NoDup (map fst (requestHeaders
    {| baseUrl := "https://api.example.com";
       headers := Some [("Authorization", "Basic abc"); ("X-Trace", "1")];
       authToken := Some "t0k" |})).
Proof.
  split; [reflexivity|].
  apply (proj1 (requestHeaders_contents
    {| baseUrl := "https://api.example.com";
       headers := Some [("Authorization", "Basic abc"); ("X-Trace", "1")];
       authToken := Some "t0k" |}
    ltac:(repeat constructor; cbn; intuition discriminate))).
Defined.

Lemma includesBody_upper_true body m :
  isBodyVerb m = true -> truthy body = true ->
  includesBody body ["POST"; "PUT"; "PATCH"] (toUpperCase (method_name m)) = true.
Proof.
  unfold includesBody. intros Hm Hb. rewrite Hb.
  destruct m; try discriminate; reflexivity.
Qed.

Section CurlBody.
Variable JSON_stringify : JsValue -> nat -> string.
Variable String_replace : string -> string -> string -> string.

(** X24: for a post, put or patch endpoint with a truthy body value, the
    command-line snippet is the snippet of the endpoint without a request
    body, followed by one more line that passes the body text with [-d]. *)
Theorem generateCurl_appends_body :
  forall (fuel : nat) (spec : JsValue) (endpoint : ParsedEndpoint)
         (options : GeneratorOptions) (body : JsValue),
    isBodyVerb (method endpoint) = true ->
    getRequestBody fuel spec endpoint = Ret body ->
    truthy body = true ->
    generateCurl JSON_stringify String_replace fuel spec endpoint options
    = (bare <- generateCurl JSON_stringify String_replace fuel spec
                 (withoutRequestBody endpoint) options ;;
       Ret (bare ++ " \" ++ nl ++ "  -d '" ++ JSON_stringify body 2 ++ "'")).
Proof.
  intros fuel spec endpoint options body Hverb Hbody Htruthy.
  pose proof (getRequestBody_operation _ _ _ _ Hbody) as Hop.
  unfold generateCurl, requestUrl.
  rewrite withoutRequestBody_allParams, (withoutRequestBody_body fuel spec _ Hop),
    Hbody.
  change (method (withoutRequestBody endpoint)) with (method endpoint).
  change (path (withoutRequestBody endpoint)) with (path endpoint).
  destruct (allParamsOf endpoint) as [allParams| |]; cbn [bind]; try reflexivity.
  destruct (buildUrl String_replace (baseUrl options) (path endpoint) allParams);
    cbn [bind]; try reflexivity.
  destruct (buildQueryString allParams); cbn [bind]; try reflexivity.
  rewrite (includesBody_upper_true body _ Hverb Htruthy).
  reflexivity.
Qed.
End CurlBody.

Lemma generateCurl_appends_body_witness :
  generateCurl (fun v _ => toStringJs v) jsReplace 0 petSpec createPet sampleOptions
  = Ret ("curl -X POST " ++ dq ++ "https://api.example.com/pets" ++ dq ++
         " \" ++ nl ++ "  -H " ++ dq ++ "Content-Type: application/json" ++ dq ++
         " \" ++ nl ++ "  -H " ++ dq ++ "Authorization: Bearer t0k" ++ dq ++
         " \" ++ nl ++ "  -d 'rex'").
Proof.
  apply (generateCurl_appends_body (fun v _ => toStringJs v) jsReplace
           0 petSpec createPet sampleOptions (JStr "rex")); reflexivity.
Defined.

(** ** Spec Loader: more properties *)

(** X25: the loader accepts a text exactly when the first parser that
    succeeds (JSON before YAML) yields a value that is not null or
    undefined and has truthy [openapi] and [paths]; the value is returned
    as parsed. *)
Theorem parseOpenAPISpec_accepts :
  forall (JSON_parse yaml_load : string -> option JsValue)
         (content : string) (spec : JsValue),
    parseOpenAPISpec JSON_parse yaml_load content = Ret spec <->
    parsedValue JSON_parse yaml_load content = Some spec /\
    is_nullish spec = false /\
    truthy (get spec "openapi") = true /\
    truthy (get spec "paths") = true.
Proof.
  intros JSON_parse yaml_load content spec.
  destruct (parseOpenAPISpec_outcomes JSON_parse yaml_load content)
    as [(s & Hrun & Hv & Ho & Hp)|[(Hrun & Hv)|[(v & Hrun & Hv & Hn & Hm)
                                               |(v & Hrun & Hv & Hn)]]];
    rewrite Hrun, Hv; split.
  - intros [= <-]. repeat split; try assumption.
    destruct s; try reflexivity; discriminate.
  - intros ([= <-] & _). reflexivity.
  - discriminate.
  - intros (H & _). discriminate.
  - discriminate.
  - intros ([= <-] & _ & Ho & Hp). destruct Hm; congruence.
  - discriminate.
  - intros ([= <-] & Hn' & _). congruence.
Qed.

(** ** The specification hook *)

Lemma bind_fuel {A B : Type} (c : Outcome A) (k : A -> Outcome B) :
  c <> OutOfFuel -> (forall a, k a <> OutOfFuel) -> bind c k <> OutOfFuel.
Proof. destruct c; cbn; [auto|discriminate|congruence]. Qed.

Lemma member_fuel v k : member v k <> OutOfFuel.
Proof. unfold member. destruct (is_nullish v); discriminate. Qed.

Lemma forEach_fuel {A S : Type} (f : S -> A -> Outcome S) :
  (forall s x, f s x <> OutOfFuel) ->
  forall xs s, forEach xs f s <> OutOfFuel.
Proof.
  intros Hf. induction xs as [|x xs IH]; intros s; [discriminate|].
  cbn [forEach]. apply bind_fuel; [apply Hf|apply IH].
Qed.

(** Extraction and grouping contain no unbounded recursion. *)
Lemma extractEndpoints_fuel spec : extractEndpoints spec <> OutOfFuel.
Proof.
  unfold extractEndpoints. apply bind_fuel; [apply member_fuel|]. intros paths.
  apply bind_fuel; [unfold Object_entries; destruct (is_nullish paths); discriminate|].
  intros entries. apply forEach_fuel. intros acc entry.
  apply forEach_fuel. intros acc' m.
  apply bind_fuel; [apply member_fuel|]. intros op. destruct (truthy op); discriminate.
Qed.

Lemma groupEndpointsByTag_fuel spec eps : groupEndpointsByTag spec eps <> OutOfFuel.
Proof.
  unfold groupEndpointsByTag. apply bind_fuel.
  - unfold tagDescriptionsOf. apply bind_fuel; [apply member_fuel|]. intros tags.
    destruct (is_nullish tags); [discriminate|].
    destruct tags; try discriminate. apply forEach_fuel. intros m tag.
    apply bind_fuel; [apply member_fuel|]. intros n.
    apply bind_fuel; [apply member_fuel|]. discriminate.
  - intros descs. apply bind_fuel; [|discriminate].
    apply forEach_fuel. intros m ep. apply bind_fuel.
    + unfold tagsOfEndpoint. apply bind_fuel; [apply member_fuel|]. intros d.
      destruct (js_or d _); discriminate.
    + intros tags. apply forEach_fuel. discriminate.
Qed.

Lemma parseOpenAPISpec_fuel JSON_parse yaml_load content :
  parseOpenAPISpec JSON_parse yaml_load content <> OutOfFuel.
Proof.
  destruct (parseOpenAPISpec_outcomes JSON_parse yaml_load content)
    as [(s & -> & _)|[(-> & _)|[(v & -> & _)|(v & -> & _)]]]; discriminate.
Qed.

Lemma loadSpec_keeps_views JSON_parse yaml_load st content st' :
  viewsDerived st ->
  loadSpec JSON_parse yaml_load st content = Ret st' ->
  viewsDerived st'.
Proof.
  intros Hst Hrun. unfold loadSpec in Hrun.
  destruct (parseOpenAPISpec JSON_parse yaml_load content) as [parsed|e|];
    cbn [bind] in Hrun; [| |discriminate].
  - destruct (extractEndpoints parsed) as [eps|e|] eqn:Heps; cbn [bind] in Hrun;
      [| |discriminate].
    + destruct (groupEndpointsByTag parsed eps) as [tags|e|] eqn:Htags;
        cbn [bind] in Hrun; [| |discriminate]; injection Hrun as <-.
      * unfold viewsDerived. cbn. auto.
      * exact Hst.
    + injection Hrun as <-. exact Hst.
  - injection Hrun as <-. exact Hst.
Qed.

(** X26: [loadSpec] always runs to its end, in a state that is no longer
    loading, and it installs all or nothing.  When the loader accepts the
    text and the extractor and the grouper return, the specification, its
    endpoints and its tags are installed together and the error is
    cleared.  Otherwise one of the three has thrown: the error recorded is
    the one thrown, and the previous specification, endpoints and tags all
    stay in place. *)
Theorem loadSpec_installs_all_or_nothing :
  forall (JSON_parse yaml_load : string -> option JsValue)
         (st : HookState) (content : string),
    (exists parsed eps tags,
        parseOpenAPISpec JSON_parse yaml_load content = Ret parsed /\
        extractEndpoints parsed = Ret eps /\
        groupEndpointsByTag parsed eps = Ret tags /\
        loadSpec JSON_parse yaml_load st content
        = Ret {| state_spec := Some parsed;
                 state_endpoints := eps;
                 state_tags := tags;
                 state_loading := false;
                 state_error := None |}) \/
    (exists err,
        (parseOpenAPISpec JSON_parse yaml_load content = Throw err \/
         (exists parsed,
             parseOpenAPISpec JSON_parse yaml_load content = Ret parsed /\
             extractEndpoints parsed = Throw err) \/
         (exists parsed eps,
             parseOpenAPISpec JSON_parse yaml_load content = Ret parsed /\
             extractEndpoints parsed = Ret eps /\
             groupEndpointsByTag parsed eps = Throw err)) /\
        loadSpec JSON_parse yaml_load st content
        = Ret {| state_spec := state_spec st;
                 state_endpoints := state_endpoints st;
                 state_tags := state_tags st;
                 state_loading := false;
                 state_error := Some err |}).
Proof.
  intros JSON_parse yaml_load st content. unfold loadSpec.
  pose proof (parseOpenAPISpec_fuel JSON_parse yaml_load content) as Hp.
  destruct (parseOpenAPISpec JSON_parse yaml_load content) as [parsed|e|] eqn:Hparse;
    cbn [bind]; [| |congruence].
  - pose proof (extractEndpoints_fuel parsed) as He.
    destruct (extractEndpoints parsed) as [eps|e|] eqn:Heps; cbn [bind];
      [| |congruence].
    + pose proof (groupEndpointsByTag_fuel parsed eps) as Hg.
      destruct (groupEndpointsByTag parsed eps) as [tags|e|] eqn:Htags; cbn [bind];
        [| |congruence].
      * left. exists parsed, eps, tags. auto.
      * right. exists e. split; [|reflexivity].
        right. right. exists parsed, eps. auto.
    + right. exists e. split; [|reflexivity]. right. left. exists parsed. auto.
  - right. exists e. split; [|reflexivity]. now left.
Qed.

Lemma resetToSample_views sample st st' :
  resetToSample sample st = Ret st' -> viewsDerived st'.
Proof.
  unfold resetToSample. intros H.
  destruct (extractEndpoints sample) as [eps| |] eqn:He; try discriminate.
  cbn [bind] in H.
  destruct (groupEndpointsByTag sample eps) as [tags| |] eqn:Hg; try discriminate.
  cbn [bind] in H. injection H as <-. unfold viewsDerived. cbn. auto.
Qed.

(** X27: the views never go stale: from the initial state, after any
    sequence of loads and resets that run to their end, the endpoints and
    the tags of the state are the ones derived from the specification of
    the state. *)
Theorem hook_views_always_derived :
  forall (JSON_parse yaml_load : string -> option JsValue) (sample : JsValue)
         (actions : list HookAction) (st0 st : HookState),
    initialState sample = Ret st0 ->
    forEach actions (perform JSON_parse yaml_load sample) st0 = Ret st ->
    viewsDerived st.
Proof.
  intros JSON_parse yaml_load sample actions st0 st Hinit Hrun.
  assert (H0 : viewsDerived st0).
  { unfold initialState in Hinit.
    destruct (extractEndpoints sample) as [eps| |] eqn:He; try discriminate.
    cbn [bind] in Hinit.
    destruct (groupEndpointsByTag sample eps) as [tags| |] eqn:Hg; try discriminate.
    cbn [bind] in Hinit. injection Hinit as <-. unfold viewsDerived. cbn. auto. }
  clear Hinit. revert st0 H0 Hrun.
  induction actions as [|a actions IH]; intros st0 H0 Hrun.
  - cbn in Hrun. now injection Hrun as <-.
  - cbn [forEach] in Hrun.
    destruct (perform JSON_parse yaml_load sample st0 a) as [st1| |] eqn:Hstep;
      try discriminate.
    cbn [bind] in Hrun. apply (IH st1); [|exact Hrun].
    destruct a as [content|]; cbn [perform] in Hstep.
    + now apply (loadSpec_keeps_views JSON_parse yaml_load st0 content).
    + now apply (resetToSample_views sample st0).
Qed.

Lemma hook_views_always_derived_witness :
  exists st0 st,
    initialState abSpec = Ret st0 /\
    forEach [LoadSpec "null"; ResetToSample; LoadSpec "{}"]
      (perform parseLiteral (readsAs (JObj [])) abSpec) st0 = Ret st /\
    viewsDerived st.
Proof.
  eexists. eexists. split; [reflexivity|]. split; [reflexivity|].
  apply (hook_views_always_derived parseLiteral (readsAs (JObj [])) abSpec
           [LoadSpec "null"; ResetToSample; LoadSpec "{}"] _ _ eq_refl eq_refl).
Defined.

(** ** The sidebar search *)

Lemma filterM_kept {A : Type} (f : A -> Outcome bool) :
  forall xs ys,
    filterM f xs = Ret ys ->
    Forall (fun y => f y = Ret true) ys /\ ys = filter (fun _ => true) ys /\
    (forall y, In y ys -> In y xs).
Proof.
  induction xs as [|x xs IH]; intros ys H.
  - cbn in H. injection H as <-. repeat split; [constructor|tauto].
  - cbn [filterM] in H. destruct (f x) as [b| |] eqn:Hx; try discriminate.
    cbn [bind] in H. destruct (filterM f xs) as [zs| |]; try discriminate.
    cbn [bind] in H. injection H as <-.
    destruct (IH zs eq_refl) as (Hall & Hid & Hsub).
    destruct b.
    + repeat split.
      * constructor; assumption.
      * cbn. now rewrite <- Hid.
      * intros y [<-|Hy]; [now left|right; now apply Hsub].
    + repeat split; [assumption|assumption|]. intros y Hy. right. now apply Hsub.
Qed.

Lemma filterM_all_kept {A : Type} (f : A -> Outcome bool) :
  forall ys, Forall (fun y => f y = Ret true) ys -> filterM f ys = Ret ys.
Proof.
  induction 1 as [|y ys Hy _ IH]; [reflexivity|].
  cbn [filterM]. rewrite Hy. cbn [bind]. rewrite IH. reflexivity.
Qed.

Lemma mapM_fixed {A : Type} (g : A -> Outcome A) (P : A -> bool) :
  forall xs, Forall (fun x => g x = Ret x) xs ->
             mapM g (filter P xs) = Ret (filter P xs).
Proof.
  induction 1 as [|x xs Hx _ IH]; [reflexivity|].
  cbn [filter]. destruct (P x); [|exact IH].
  cbn [mapM]. rewrite Hx. cbn [bind]. rewrite IH. reflexivity.
Qed.

Lemma mapM_images {A B : Type} (g : A -> Outcome B) (Q : B -> Prop) :
  (forall x y, g x = Ret y -> Q y) ->
  forall xs ys, mapM g xs = Ret ys -> Forall Q ys.
Proof.
  intros Hg. induction xs as [|x xs IH]; intros ys H.
  - cbn in H. injection H as <-. constructor.
  - cbn [mapM] in H. destruct (g x) as [y| |] eqn:Hx; try discriminate.
    cbn [bind] in H. destruct (mapM g xs) as [zs| |]; try discriminate.
    cbn [bind] in H. injection H as <-. constructor; [now apply (Hg x)|now apply IH].
Qed.

(** X28: what the search returns has no empty group, and searching the
    result again with the same text changes nothing. *)
Theorem filteredTags_idempotent :
  forall (tags result : list ParsedTag) (searchQuery : string),
    searchQuery <> "" ->
    filteredTags tags searchQuery = Ret result ->
    Forall (fun tag => endpoints tag <> []) result /\
    filteredTags result searchQuery = Ret result.
Proof.
  intros tags result q Hq Hrun. unfold filteredTags in *.
  apply String.eqb_neq in Hq. rewrite Hq in *. cbv zeta in *.
  set (g := fun tag : ParsedTag =>
              kept <- filterM (matchesQuery (jsToLowerCase q)) (endpoints tag) ;;
              Ret {| name := name tag; description := description tag;
                     endpoints := kept |}) in *.
  destruct (mapM g tags) as [mapped| |] eqn:Hmap; try discriminate.
  cbn [bind] in Hrun. injection Hrun as <-.
  assert (Himage : forall tag y, g tag = Ret y -> g y = Ret y).
  { intros tag y Hy. unfold g in Hy.
    destruct (filterM (matchesQuery (jsToLowerCase q)) (endpoints tag))
      as [kept| |] eqn:Hk; try discriminate.
    cbn [bind] in Hy. injection Hy as <-. unfold g. cbn [endpoints name description].
    destruct (filterM_kept _ _ _ Hk) as (Hall & _ & _).
    rewrite (filterM_all_kept _ _ Hall). reflexivity. }
  pose proof (mapM_images g (fun tag => g tag = Ret tag) Himage tags mapped Hmap)
    as Hfix.
  split.
  - apply Forall_forall. intros tag Hin. apply filter_In in Hin.
    destruct Hin as [_ Hlen]. destruct (endpoints tag); discriminate.
  - rewrite (mapM_fixed g _ mapped Hfix). cbn [bind]. f_equal.
    clear. induction mapped as [|tag mapped IH]; [reflexivity|].
    cbn [filter]. destruct (0 <? List.length (endpoints tag))%nat eqn:E;
      cbn [filter]; [rewrite E; now f_equal|exact IH].
Qed.

Lemma filteredTags_idempotent_witness :
  exists result,
    filteredTags abTags "/B" = Ret result /\
    map name result = [JStr "Y"] /\
    filteredTags result "/B" = Ret result.
Proof.
  eexists. split; [reflexivity|]. split; [reflexivity|].
  apply (proj2 (filteredTags_idempotent abTags _ "/B" ltac:(discriminate) eq_refl)).
Defined.

Lemma lowerCodeUnit_idempotent c :
  lowerCodeUnit (lowerCodeUnit c) = lowerCodeUnit c.
Proof. destruct c as [[] [] [] [] [] [] [] []]; reflexivity. Qed.

Lemma jsToLowerCase_idempotent s : jsToLowerCase (jsToLowerCase s) = jsToLowerCase s.
Proof.
  induction s as [|c s IH]; [reflexivity|].
  cbn [jsToLowerCase string_map]. rewrite lowerCodeUnit_idempotent.
  f_equal. exact IH.
Qed.

(** X29: the search does not look at the case of the text typed: a text
    and its lower-case form find the same groups and endpoints. *)
Theorem filteredTags_ignores_query_case :
  forall (tags : list ParsedTag) (searchQuery : string),
    filteredTags tags (jsToLowerCase searchQuery) = filteredTags tags searchQuery.
Proof.
  intros tags q. unfold filteredTags. rewrite jsToLowerCase_idempotent.
  destruct q as [|c q]; reflexivity.
Qed.
